(** * ShellEmulator: a shallow embedding of [aa.py]

    The program keeps a virtual file system loaded from a tar archive as
    nested Python dictionaries, and interprets the commands [ls], [cd],
    [chown], [who], [uniq] and [exit] against it, recording each command
    in a session log.

    Python strings are modelled by [string]; a character is a code point
    below 256.  Python dictionaries are modelled by association lists in
    insertion order, which is the order Python iterates them in.  What a
    method prints and the log file it writes are fields of the session
    state; a method that can leave through [exit()] or raise returns an
    [outcome].

    The file has the definitions first: the string methods of Python
    ([Py]), the two implementations of [os.path] ([PosixPath], [NtPath]),
    the loader, the traversal and the commands of [ShellEmulator].  The
    properties follow, grouped by the claim of the specification they
    settle. *)

From Stdlib Require Import String Ascii List Bool Arith PeanoNat Lia.
From Stdlib Require Import Sorted Permutation.
Import ListNotations.

Local Open Scope list_scope.
Local Open Scope string_scope.

(* ================================================================= *)
(** ** The built-in string methods the program calls *)

Module Py.

Definition LF : ascii := "010"%char.
Definition CR : ascii := "013"%char.
Definition SLASH : ascii := "047"%char.
Definition BACKSLASH : ascii := "092"%char.
Definition COLON : ascii := "058"%char.

(** The one-character string [c]. *)
Definition chr (c : ascii) : string := String c EmptyString.

(** [str.isspace] on one character: the code points below 256 that
    Python treats as white space. *)
Definition isspace (c : ascii) : bool :=
  let n := nat_of_ascii c in
  (((9 <=? n) && (n <=? 13)) || ((28 <=? n) && (n <=? 32))
  || (n =? 133) || (n =? 160))%nat.

(** The line boundaries of [str.splitlines] below 256. *)
Definition islinebreak (c : ascii) : bool :=
  let n := nat_of_ascii c in
  (((10 <=? n) && (n <=? 13)) || ((28 <=? n) && (n <=? 30))
   || (n =? 133))%nat.

(** [s.startswith(p)] and [s.endswith(p)]. *)
Definition startswith (p s : string) : bool := String.prefix p s.

Fixpoint endswith (p s : string) : bool :=
  String.eqb p s ||
  match s with
  | EmptyString => false
  | String _ s' => endswith p s'
  end.

(** [s.lstrip(chars)], [s.rstrip(chars)] and [s.strip(chars)], the set
    of characters given as a predicate. *)
Fixpoint lstrip (p : ascii -> bool) (s : string) : string :=
  match s with
  | EmptyString => EmptyString
  | String c s' => if p c then lstrip p s' else s
  end.

Fixpoint rstrip (p : ascii -> bool) (s : string) : string :=
  match s with
  | EmptyString => EmptyString
  | String c s' =>
      match rstrip p s' with
      | EmptyString => if p c then EmptyString else chr c
      | r => String c r
      end
  end.

Definition strip (p : ascii -> bool) (s : string) : string :=
  rstrip p (lstrip p s).

(** [s.split(sep)] for a one-character separator: never empty. *)
Fixpoint split (sep : ascii) (s : string) : list string :=
  match s with
  | EmptyString => [EmptyString]
  | String c s' =>
      if Ascii.eqb c sep then EmptyString :: split sep s'
      else match split sep s' with
           | [] => [chr c]
           | w :: ws => String c w :: ws
           end
  end.

(** [s.split()]: the maximal runs of characters that are not white
    space. *)
Fixpoint split_ws (s : string) : list string :=
  match s with
  | EmptyString => []
  | String c s' =>
      if isspace c then split_ws s'
      else match s' with
           | EmptyString => [chr c]
           | String c' _ =>
               if isspace c' then chr c :: split_ws s'
               else match split_ws s' with
                    | [] => [chr c]
                    | w :: ws => String c w :: ws
                    end
           end
  end.

(** [s.splitlines()]: a line ends at a line boundary, and a carriage
    return followed by a line feed is one boundary; what follows the
    last boundary is a line only when it is not empty. *)
Fixpoint splitlines (s : string) : list string :=
  match s with
  | EmptyString => []
  | String c s' =>
      if islinebreak c then
        match s' with
        | String c' s'' =>
            if Ascii.eqb c CR && Ascii.eqb c' LF
            then EmptyString :: splitlines s''
            else EmptyString :: splitlines s'
        | EmptyString => [EmptyString]
        end
      else match splitlines s' with
           | [] => [chr c]
           | l :: ls => String c l :: ls
           end
  end.

(** [sep.join(l)]. *)
Definition join (sep : string) (l : list string) : string :=
  String.concat sep l.

(** [s.replace(a, b)] for single characters. *)
Fixpoint replace (a b : ascii) (s : string) : string :=
  match s with
  | EmptyString => EmptyString
  | String c s' => String (if Ascii.eqb c a then b else c) (replace a b s')
  end.

(** [s.lower()] below 256, and [s.upper()] on the letters a to z (the
    only ones whose upper case is an ASCII letter). *)
Definition lower_char (c : ascii) : ascii :=
  let n := nat_of_ascii c in
  if (((65 <=? n) && (n <=? 90))
      || ((192 <=? n) && (n <=? 222) && negb (n =? 215)))%nat
  then ascii_of_nat (n + 32) else c.

Definition upper_char (c : ascii) : ascii :=
  let n := nat_of_ascii c in
  if ((97 <=? n) && (n <=? 122))%nat then ascii_of_nat (n - 32) else c.

Fixpoint map_chars (f : ascii -> ascii) (s : string) : string :=
  match s with
  | EmptyString => EmptyString
  | String c s' => String (f c) (map_chars f s')
  end.

Definition lower : string -> string := map_chars lower_char.
Definition upper : string -> string := map_chars upper_char.

(** Slices [s[:n]] and [s[n:]]. *)
Fixpoint take (n : nat) (s : string) : string :=
  match n, s with
  | S n', String c s' => String c (take n' s')
  | _, _ => EmptyString
  end.

Fixpoint drop (n : nat) (s : string) : string :=
  match n, s with
  | S n', String _ s' => drop n' s'
  | _, _ => s
  end.

(** [s.find(c, start)]: the first index at or after [start] holding
    [c]; [None] is Python's -1. *)
Fixpoint find_from (c : ascii) (start : nat) (s : string) : option nat :=
  match s with
  | EmptyString => None
  | String c' s' =>
      match start with
      | S k => option_map S (find_from c k s')
      | O => if Ascii.eqb c' c then Some 0
             else option_map S (find_from c 0 s')
      end
  end.

(** The last character, [s[-1:]]. *)
Fixpoint last_char (s : string) : option ascii :=
  match s with
  | EmptyString => None
  | String c EmptyString => Some c
  | String _ s' => last_char s'
  end.

(** [l.index(x)]: the position of the first [x] in [l] (for an [x] that
    is not in [l], where Python raises, the length of [l]). *)
Fixpoint index (l : list string) (x : string) : nat :=
  match l with
  | [] => 0
  | y :: l' => if String.eqb y x then 0 else S (index l' x)
  end.

(** [set(l)], enumerated in one of the orders Python may iterate it
    in: each element once. *)
Definition set (l : list string) : list string := nodup string_dec l.

(** [sorted(l, key=key)]: a stable sort on the keys. *)
Fixpoint insert_by (key : string -> nat) (x : string) (l : list string)
  : list string :=
  match l with
  | [] => [x]
  | y :: l' =>
      if (key x <=? key y)%nat then x :: l else y :: insert_by key x l'
  end.

Definition sorted (key : string -> nat) (l : list string) : list string :=
  fold_right (insert_by key) [] l.

End Py.

(* ================================================================= *)
(** ** [os.path]

    [cd] and [chown] build paths with [os.path.join] and
    [os.path.normpath], which depend on the platform Python runs on.  The
    two modules below follow the reference implementations of CPython
    3.11, [posixpath.py] and [ntpath.py]. *)

Definition is_empty (s : string) : bool :=
  match s with EmptyString => true | _ => false end.

Module PosixPath.

Definition sep : string := Py.chr Py.SLASH.
Definition dot : string := ".".
Definition dotdot : string := "..".

(** [posixpath.join(a, b)]. *)
Definition join (a b : string) : string :=
  if Py.startswith sep b then b
  else if is_empty a || Py.endswith sep a then a ++ b
  else a ++ sep ++ b.

(** The loop of [normpath] over the components; [new_comps] is kept
    last component first. *)
Fixpoint norm_comps (initial_slashes : nat) (new_comps comps : list string)
  : list string :=
  match comps with
  | [] => rev new_comps
  | comp :: rest =>
      if String.eqb comp EmptyString || String.eqb comp dot
      then norm_comps initial_slashes new_comps rest
      else if negb (String.eqb comp dotdot)
              || ((initial_slashes =? 0)%nat && (length new_comps =? 0)%nat)
              || match new_comps with
                 | last :: _ => String.eqb last dotdot
                 | [] => false
                 end
      then norm_comps initial_slashes (comp :: new_comps) rest
      else norm_comps initial_slashes (tl new_comps) rest
  end.

Fixpoint repeat_sep (n : nat) : string :=
  match n with
  | O => EmptyString
  | S n' => sep ++ repeat_sep n'
  end.

(** [posixpath.normpath(path)]. *)
Definition normpath (path : string) : string :=
  if is_empty path then dot
  else
    let initial_slashes :=
      if Py.startswith sep path then
        if Py.startswith (sep ++ sep) path
           && negb (Py.startswith (sep ++ sep ++ sep) path)
        then 2 else 1
      else 0 in
    let comps := norm_comps initial_slashes [] (Py.split Py.SLASH path) in
    let path' := repeat_sep initial_slashes ++ Py.join sep comps in
    if is_empty path' then dot else path'.

End PosixPath.

Module NtPath.

Definition sep : string := Py.chr Py.BACKSLASH.
Definition curdir : string := ".".
Definition pardir : string := "..".
Definition colon : string := Py.chr Py.COLON.
Definition unc_prefix : string := sep ++ sep ++ "?" ++ sep ++ "UNC" ++ sep.

Definition in_seps (c : ascii) : bool :=
  Ascii.eqb c Py.BACKSLASH || Ascii.eqb c Py.SLASH.

Definition first_in_seps (s : string) : bool :=
  match s with
  | String c _ => in_seps c
  | EmptyString => false
  end.

(** [ntpath.splitdrive(p)]. *)
Definition splitdrive (p : string) : string * string :=
  if (2 <=? String.length p)%nat then
    let normp := Py.replace Py.SLASH Py.BACKSLASH p in
    if String.eqb (Py.take 2 normp) (sep ++ sep) then
      let start :=
        if String.eqb (Py.upper (Py.take 8 normp)) unc_prefix then 8 else 2 in
      match Py.find_from Py.BACKSLASH start normp with
      | None => (p, EmptyString)
      | Some index =>
          match Py.find_from Py.BACKSLASH (index + 1) normp with
          | None => (p, EmptyString)
          | Some index2 => (Py.take index2 p, Py.drop index2 p)
          end
      end
    else if String.eqb (Py.take 1 (Py.drop 1 normp)) colon
    then (Py.take 2 p, Py.drop 2 p)
    else (EmptyString, p)
  else (EmptyString, p).

(** [ntpath.join(path, p)]. *)
Definition join (path p : string) : string :=
  let '(result_drive, result_path) := splitdrive path in
  let '(p_drive, p_path) := splitdrive p in
  let '(result_drive, result_path) :=
    if first_in_seps p_path then
      (if negb (is_empty p_drive) || is_empty result_drive
       then p_drive else result_drive, p_path)
    else if negb (is_empty p_drive) && negb (String.eqb p_drive result_drive)
            && negb (String.eqb (Py.lower p_drive) (Py.lower result_drive))
    then (p_drive, p_path)
    else
      let result_drive :=
        if negb (is_empty p_drive) && negb (String.eqb p_drive result_drive)
        then p_drive else result_drive in
      let result_path :=
        match Py.last_char result_path with
        | Some c => if in_seps c then result_path else result_path ++ sep
        | None => result_path
        end in
      (result_drive, result_path ++ p_path) in
  if negb (is_empty result_path) && negb (first_in_seps result_path)
     && negb (is_empty result_drive)
     && negb (Py.endswith colon result_drive)
  then result_drive ++ sep ++ result_path
  else result_drive ++ result_path.

(** The loop of [normpath]: [done] holds [comps[:i]], last component
    first, and the second list holds [comps[i:]]. *)
Fixpoint norm_comps (prefix_ends_sep : bool) (done comps : list string)
  : list string :=
  match comps with
  | [] => rev done
  | comp :: rest =>
      if is_empty comp || String.eqb comp curdir
      then norm_comps prefix_ends_sep done rest
      else if String.eqb comp pardir then
        match done with
        | prev :: done' =>
            if negb (String.eqb prev pardir)
            then norm_comps prefix_ends_sep done' rest
            else norm_comps prefix_ends_sep (comp :: done) rest
        | [] =>
            if prefix_ends_sep
            then norm_comps prefix_ends_sep [] rest
            else norm_comps prefix_ends_sep [comp] rest
        end
      else norm_comps prefix_ends_sep (comp :: done) rest
  end.

(** [ntpath.normpath(path)]. *)
Definition normpath (path : string) : string :=
  let path := Py.replace Py.SLASH Py.BACKSLASH path in
  let '(prefix, path) := splitdrive path in
  let '(prefix, path) :=
    if Py.startswith sep path
    then (prefix ++ sep, Py.lstrip (Ascii.eqb Py.BACKSLASH) path)
    else (prefix, path) in
  let comps :=
    norm_comps (Py.endswith sep prefix) [] (Py.split Py.BACKSLASH path) in
  let comps :=
    if is_empty prefix && (length comps =? 0)%nat then [curdir] else comps in
  prefix ++ Py.join sep comps.

End NtPath.

(* ================================================================= *)
(** ** The session log and the platform *)

(** One dictionary appended by [log]. *)
Record LogEntry : Type := {
  timestamp : string;
  command : string;
  status : string;
  message : string
}.

(** What the program takes from its host: the two [os.path] functions,
    the clock read by [datetime.now().isoformat()] (its reading when the
    log already holds [n] entries), and the outcome of writing the log
    file ([None] when [tree.write] succeeds, the text of the exception
    otherwise). *)
Record Platform : Type := {
  os_path_join : string -> string -> string;
  os_path_normpath : string -> string;
  now_isoformat : nat -> string;
  tree_write : string -> list LogEntry -> option string
}.

Definition posix (clock : nat -> string)
    (write : string -> list LogEntry -> option string) : Platform :=
  {| os_path_join := PosixPath.join;
     os_path_normpath := PosixPath.normpath;
     now_isoformat := clock;
     tree_write := write |}.

Definition nt (clock : nat -> string)
    (write : string -> list LogEntry -> option string) : Platform :=
  {| os_path_join := NtPath.join;
     os_path_normpath := NtPath.normpath;
     now_isoformat := clock;
     tree_write := write |}.

(* ================================================================= *)
(** ** The virtual file system

    [self.fs] is a dictionary whose values are dictionaries again: a
    directory holds its children under their names, next to the strings
    stored under ["type"] and ["owner"] when the directory came from an
    archive member of its own; a file is the dictionary with the keys
    ["type"], ["content"] and ["owner"].  Every dictionary is created at
    one place and stored under one key, so the nested dictionaries form a
    tree and an assignment through a reference is an update at a path. *)

#[local] Set Warnings "-register-all".

Inductive value : Type :=
| VStr (s : string)
| VDict (d : list (string * value)).

Definition dict : Type := list (string * value).

(** [d.get(k)], [k in d] and [d[k] = v].  Assigning to a key that is
    present keeps its position, a new key goes last. *)
Fixpoint dict_get (k : string) (d : dict) : option value :=
  match d with
  | [] => None
  | (k', v) :: d' => if String.eqb k' k then Some v else dict_get k d'
  end.

Definition dict_mem (k : string) (d : dict) : bool :=
  match dict_get k d with
  | Some _ => true
  | None => false
  end.

Fixpoint dict_set (k : string) (v : value) (d : dict) : dict :=
  match d with
  | [] => [(k, v)]
  | (k', v') :: d' =>
      if String.eqb k' k then (k, v) :: d' else (k', v') :: dict_set k v d'
  end.

(** The keys in iteration order. *)
Definition dict_keys (d : dict) : list string := map fst d.

(** The exceptions the program can raise. *)
Inductive exn : Type :=
| AttributeError
| TypeError
| KeyError
| EOFError
| ValueError
| UnicodeDecodeError.

Inductive res (A : Type) : Type :=
| Ok (a : A)
| Raise (e : exn).

Arguments Ok {A} a.
Arguments Raise {A} e.

Definition bind {A B : Type} (r : res A) (k : A -> res B) : res B :=
  match r with
  | Ok a => k a
  | Raise e => Raise e
  end.

Notation "x <- r ;; k" := (bind r (fun x => k))
  (at level 61, r at next level, right associativity).

(** *** Loading the archive *)

(** A member of the archive as [load_tar] uses it: its name, and whether
    [isfile()] holds (then with the decoded content), [isdir()] holds, or
    neither. *)
Inductive member_kind : Type :=
| IsFile (content : string)
| IsDir
| IsOther.

Record member : Type := {
  member_name : string;
  kind : member_kind
}.

Definition default_owner : string := "root".

Definition file_node (content : string) : value :=
  VDict [("type", VStr "file"); ("content", VStr content);
         ("owner", VStr default_owner)].

Definition dir_node : value :=
  VDict [("type", VStr "dir"); ("owner", VStr default_owner)].

(** The assignment [node[parts[-1]] = ...] of lines 36 to 39. *)
Definition store_leaf (name : string) (k : member_kind) (node : dict) : dict :=
  match k with
  | IsFile content => dict_set name (file_node content) node
  | IsDir => dict_set name dir_node node
  | IsOther => node
  end.

(** The body of the loop over the members: [setdefault] along
    [parts[:-1]], then the assignment at the node reached.  When
    [setdefault] returns a string, the next [setdefault] raises
    [AttributeError] and the assignment raises [TypeError]. *)
Fixpoint store (dirs : list string) (name : string) (k : member_kind)
    (node : dict) : res dict :=
  match dirs with
  | [] => Ok (store_leaf name k node)
  | part :: rest =>
      match dict_get part node with
      | None =>
          sub <- store rest name k [] ;;
          Ok (dict_set part (VDict sub) node)
      | Some (VDict d) =>
          sub <- store rest name k d ;;
          Ok (dict_set part (VDict sub) node)
      | Some (VStr _) =>
          match rest, k with
          | [], IsOther => Ok node
          | [], _ => Raise TypeError
          | _ :: _, _ => Raise AttributeError
          end
      end
  end.

Definition load_member (fs : dict) (m : member) : res dict :=
  let parts := Py.split Py.SLASH (member_name m) in
  store (removelast parts) (last parts EmptyString) (kind m) fs.

Fixpoint load_members (members : list member) (fs : dict) : res dict :=
  match members with
  | [] => Ok fs
  | m :: rest => fs' <- load_member fs m ;; load_members rest fs'
  end.

(** [load_tar] on a recognised archive, starting from [self.fs = {}]. *)
Definition load_tar (members : list member) : res dict :=
  load_members members [].

(** *** The archive before its contents are decoded *)

(** A member as [tarfile] hands it to [load_tar].  For a regular file,
    [content] is what [tar.extractfile(member).read().decode()] gives: the
    text, or the exception it raises, which is [UnicodeDecodeError] when
    the bytes are not UTF-8. *)
Inductive tar_kind : Type :=
| TarFile (content : res string)
| TarDir
| TarOther.

Record tar_member : Type := {
  tar_name : string;
  tar_kind_of : tar_kind
}.

(** The file at [tar_path]: whether [tarfile.is_tarfile] recognises it,
    and the members that [getmembers()] lists. *)
Record tar_archive : Type := {
  is_tarfile : bool;
  getmembers : list tar_member
}.

(** What the right-hand side of the assignment of lines 36 to 39 needs
    of the member: for a file the content is decoded there. *)
Definition decoded (k : tar_kind) : res member_kind :=
  match k with
  | TarFile content => text <- content ;; Ok (IsFile text)
  | TarDir => Ok IsDir
  | TarOther => Ok IsOther
  end.

(** The body of the loop on such a member: [setdefault] along
    [parts[:-1]] comes first, then the right-hand side of the assignment
    is evaluated, and the assignment itself comes last. *)
Fixpoint store_read (dirs : list string) (name : string) (k : tar_kind)
    (node : dict) : res dict :=
  match dirs with
  | [] => leaf <- decoded k ;; Ok (store_leaf name leaf node)
  | part :: rest =>
      match dict_get part node with
      | None =>
          sub <- store_read rest name k [] ;;
          Ok (dict_set part (VDict sub) node)
      | Some (VDict d) =>
          sub <- store_read rest name k d ;;
          Ok (dict_set part (VDict sub) node)
      | Some (VStr _) =>
          match rest with
          | [] =>
              leaf <- decoded k ;;
              match leaf with
              | IsOther => Ok node
              | _ => Raise TypeError
              end
          | _ :: _ => Raise AttributeError
          end
      end
  end.

Definition tar_parts (m : tar_member) : list string :=
  Py.split Py.SLASH (tar_name m).

Definition load_read_member (fs : dict) (m : tar_member) : res dict :=
  let parts := Py.split Py.SLASH (tar_name m) in
  store_read (removelast parts) (last parts EmptyString) (tar_kind_of m) fs.

Fixpoint load_read_members (members : list tar_member) (fs : dict)
  : res dict :=
  match members with
  | [] => Ok fs
  | m :: rest => fs' <- load_read_member fs m ;; load_read_members rest fs'
  end.

(** [load_tar] as a whole: the test of lines 28 and 29, then the loop,
    starting from [self.fs = {}]. *)
Definition load_archive (a : tar_archive) : res dict :=
  if is_tarfile a then load_read_members (getmembers a) []
  else Raise ValueError.

(** A member whose content, if it is a file, has been decoded. *)
Definition as_read (m : member) : tar_member :=
  {| tar_name := member_name m;
     tar_kind_of := match kind m with
                    | IsFile content => TarFile (Ok content)
                    | IsDir => TarDir
                    | IsOther => TarOther
                    end |}.

(** *** Path traversal *)

(** The loop of [traverse_path]. *)
Fixpoint walk (parts : list string) (node : dict) : option dict :=
  match parts with
  | [] => Some node
  | part :: rest =>
      if is_empty part then walk rest node
      else match dict_get part node with
           | Some (VDict d) => walk rest d
           | _ => None
           end
  end.

Definition path_parts (path : string) : list string :=
  Py.split Py.BACKSLASH (Py.strip (Ascii.eqb Py.BACKSLASH) path).

Definition traverse_path (fs : dict) (path : string) : option dict :=
  walk (path_parts path) fs.

(** [node[key] = v] for the [node] that [walk parts] returned: the same
    dictionary object sits in the tree, so the tree changes at [parts]. *)
Fixpoint assign_at (parts : list string) (key : string) (v : value)
    (node : dict) : dict :=
  match parts with
  | [] => dict_set key v node
  | part :: rest =>
      if is_empty part then assign_at rest key v node
      else match dict_get part node with
           | Some (VDict d) => dict_set part (VDict (assign_at rest key v d)) node
           | _ => node
           end
  end.

(* ================================================================= *)
(** ** The session *)

(** The fields of a [ShellEmulator], with what it has printed ([stdout],
    one string per call of [print] or prompt of [input]) and the log file
    it has written, if any. *)
Record ShellEmulator : Type := {
  log_path : string;
  fs : dict;
  current_path : string;
  log_actions : list LogEntry;
  current_user : string;
  stdout : list string;
  log_file : option (list LogEntry)
}.

Definition set_fs (fs' : dict) (s : ShellEmulator) : ShellEmulator :=
  {| log_path := log_path s; fs := fs'; current_path := current_path s;
     log_actions := log_actions s; current_user := current_user s;
     stdout := stdout s; log_file := log_file s |}.

Definition set_current_path (p : string) (s : ShellEmulator) : ShellEmulator :=
  {| log_path := log_path s; fs := fs s; current_path := p;
     log_actions := log_actions s; current_user := current_user s;
     stdout := stdout s; log_file := log_file s |}.

Definition print (line : string) (s : ShellEmulator) : ShellEmulator :=
  {| log_path := log_path s; fs := fs s; current_path := current_path s;
     log_actions := log_actions s; current_user := current_user s;
     stdout := (stdout s ++ [line])%list; log_file := log_file s |}.

Definition set_log_file (f : list LogEntry) (s : ShellEmulator) : ShellEmulator :=
  {| log_path := log_path s; fs := fs s; current_path := current_path s;
     log_actions := log_actions s; current_user := current_user s;
     stdout := stdout s; log_file := Some f |}.

(** How a command ends: it returns to the loop of [run], it leaves the
    process through [exit()], or it raises. *)
Inductive outcome : Type :=
| Returned (s : ShellEmulator)
| Exited (s : ShellEmulator)
| Raised (e : exn) (s : ShellEmulator).

Definition success : string := "success".
Definition error : string := "error".

(** [request_login] on the line that the user answers with: the user it
    returns and what it prints. *)
Definition request_login (answer : string) : string * list string :=
  let user := Py.strip Py.isspace answer in
  if is_empty user
  then ("guest",
        ["Enter your username: ";
         "Username cannot be empty. Using 'guest' as default."])
  else (user, ["Enter your username: "]).

(** [__init__]: the fields are set, the user logs in, and [load_tar]
    fills [self.fs]; an exception of [load_tar] leaves no session. *)
Definition new_session (log answer : string) (members : list member)
  : res ShellEmulator :=
  let '(user, out) := request_login answer in
  tree <- load_tar members ;;
  Ok {| log_path := log; fs := tree; current_path := "/";
        log_actions := []; current_user := user;
        stdout := out; log_file := None |}.

Section Commands.

Variable P : Platform.

(** [log(command, status, message)]. *)
Definition log (cmd st msg : string) (s : ShellEmulator) : ShellEmulator :=
  {| log_path := log_path s; fs := fs s; current_path := current_path s;
     log_actions :=
       (log_actions s ++
        [{| timestamp := now_isoformat P (length (log_actions s));
            command := cmd; status := st; message := msg |}])%list;
     current_user := current_user s;
     stdout := stdout s; log_file := log_file s |}.

(** [save_log]. *)
Definition save_log (s : ShellEmulator) : ShellEmulator :=
  match log_actions s with
  | [] => print "No actions to log." s
  | _ :: _ =>
      match tree_write P (log_path s) (log_actions s) with
      | None =>
          print ("Log saved to " ++ log_path s)
                (set_log_file (log_actions s) s)
      | Some e => print ("Error saving log: " ++ e) s
      end
  end.

(** [ls]. *)
Definition ls (s : ShellEmulator) : ShellEmulator :=
  match traverse_path (fs s) (current_path s) with
  | None => log "ls" error "Not a directory" (print "Not a directory" s)
  | Some node =>
      log "ls" success EmptyString
          (fold_left (fun s' name => print name s') (dict_keys node) s)
  end.

(** [cd]. *)
Definition cd (args : list string) (s : ShellEmulator) : ShellEmulator :=
  match args with
  | [path] =>
      let new_path :=
        os_path_normpath P (os_path_join P (current_path s) path) in
      match traverse_path (fs s) new_path with
      | None =>
          log "cd" error "No such directory"
              (print ("No such directory: " ++ path) s)
      | Some _ =>
          log ("cd " ++ path) success EmptyString (set_current_path new_path s)
      end
  | _ => log "cd" error "Invalid arguments" (print "Usage: cd <path>" s)
  end.

(** [chown]. *)
Definition chown (args : list string) (s : ShellEmulator) : ShellEmulator :=
  match args with
  | [owner; path] =>
      let target := os_path_join P (current_path s) path in
      match traverse_path (fs s) target with
      | None =>
          log "chown" error "No such file or directory"
              (print ("No such file or directory: " ++ path) s)
      | Some node =>
          if negb (dict_mem "owner" node) then
            log "chown" error "Cannot change owner"
                (print ("Cannot change owner of " ++ path) s)
          else
            log ("chown " ++ owner ++ " " ++ path) success EmptyString
                (print ("Owner of " ++ path ++ " changed to " ++ owner)
                       (set_fs (assign_at (path_parts target) "owner"
                                          (VStr owner) (fs s)) s))
      end
  | _ =>
      log "chown" error "Invalid arguments"
          (print "Usage: chown <owner> <path>" s)
  end.

(** [who]. *)
Definition who (s : ShellEmulator) : ShellEmulator :=
  log "who" success EmptyString (print ("User: " ++ current_user s) s).

(** The text [uniq] computes from the content of a file. *)
Definition unique_lines (content : string) : string :=
  let lines := Py.splitlines content in
  Py.join (Py.chr Py.LF) (Py.sorted (Py.index lines) (Py.set lines)).

(** [uniq].  A node whose ["type"] is ["file"] is read at ["content"]:
    a missing key raises [KeyError], and a value that is not a string
    has no [splitlines]. *)
Definition uniq (args : list string) (s : ShellEmulator) : outcome :=
  match args with
  | [path] =>
      let no_such_file :=
        Returned (log "uniq" error "No such file"
                      (print ("No such file: " ++ path) s)) in
      match traverse_path (fs s) path with
      | None => no_such_file
      | Some node =>
          match dict_get "type" node with
          | Some (VStr ty) =>
              if String.eqb ty "file" then
                match dict_get "content" node with
                | Some (VStr content) =>
                    let text := unique_lines content in
                    Returned
                      (log ("uniq " ++ path) success EmptyString
                         (print text
                            (set_fs (assign_at (path_parts path) "content"
                                               (VStr text) (fs s)) s)))
                | Some (VDict _) => Raised AttributeError s
                | None => Raised KeyError s
                end
              else no_such_file
          | _ => no_such_file
          end
      end
  | _ =>
      Returned (log "uniq" error "Invalid arguments"
                    (print "Usage: uniq <file>" s))
  end.

(** [exit_shell]. *)
Definition exit_shell (s : ShellEmulator) : outcome :=
  Exited (print "Session saved. Exiting..." (save_log s)).

(** [execute_command]. *)
Definition execute_command (line : string) (s : ShellEmulator) : outcome :=
  match Py.split_ws (Py.strip Py.isspace line) with
  | [] => Returned s
  | cmd :: args =>
      if String.eqb cmd "ls" then Returned (ls s)
      else if String.eqb cmd "cd" then Returned (cd args s)
      else if String.eqb cmd "chown" then Returned (chown args s)
      else if String.eqb cmd "who" then Returned (who s)
      else if String.eqb cmd "uniq" then uniq args s
      else if String.eqb cmd "exit" then exit_shell s
      else
        Returned (log line error "Command not found"
                      (print ("Command not found: " ++ cmd) s))
  end.

(** The loop of [run] on the lines that [input] will return; when they
    are used up, [input] raises [EOFError]. *)
Fixpoint run_loop (lines : list string) (s : ShellEmulator) : outcome :=
  let s := print (current_path s ++ "> ") s in
  match lines with
  | [] => Raised EOFError s
  | line :: rest =>
      match execute_command line s with
      | Returned s' => run_loop rest s'
      | o => o
      end
  end.

Definition run (lines : list string) (s : ShellEmulator) : outcome :=
  run_loop lines (print "Welcome to Shell Emulator. Type 'exit' to quit." s).

End Commands.

(* ================================================================= *)
(** ** Concrete sessions used below *)

Definition nl : string := Py.chr Py.LF.

Definition sample_clock (n : nat) : string := "2024-01-01T00:00:00".
Definition writable (path : string) (entries : list LogEntry) : option string :=
  None.

(** An archive with the directory [d], the file [d/f] and the file
    [p/q/r], whose parents [p] and [p/q] are not members. *)
Definition sample_members : list member :=
  [ {| member_name := "d"; kind := IsDir |};
    {| member_name := "d/f"; kind := IsFile "x" |};
    {| member_name := "p/q/r"; kind := IsFile "y" |} ].

(** The two hosts: Python on Windows and Python on a POSIX system. *)
Definition windows : Platform := nt sample_clock writable.
Definition unix : Platform := posix sample_clock writable.

(** The session that starts on the tree loaded from [members]; [None]
    when loading raises. *)
Definition session_on (members : list member) : option ShellEmulator :=
  match new_session "log.xml" "alice" members with
  | Ok s => Some s
  | Raise _ => None
  end.

(** The archive of the scenario: the directory [a/] and the file
    [a/f.txt].  [tarfile] reports the name of a directory without the
    slash that ends it, which is the second list. *)
Definition scenario_content : string := "x" ++ nl ++ "x" ++ nl ++ "y" ++ nl.

Definition scenario_members : list member :=
  [ {| member_name := "a/"; kind := IsDir |};
    {| member_name := "a/f.txt"; kind := IsFile scenario_content |} ].

Definition scenario_members_as_read : list member :=
  [ {| member_name := "a"; kind := IsDir |};
    {| member_name := "a/f.txt"; kind := IsFile scenario_content |} ].

(** The content stored for the file reached by the dictionary keys
    [keys], whatever [traverse_path] makes of them. *)
Fixpoint node_at (keys : list string) (node : dict) : option dict :=
  match keys with
  | [] => Some node
  | k :: rest =>
      match dict_get k node with
      | Some (VDict d) => node_at rest d
      | _ => None
      end
  end.

Definition content_at (keys : list string) (tree : dict) : option value :=
  match node_at keys tree with
  | Some node => dict_get "content" node
  | None => None
  end.

Definition owner_at (keys : list string) (tree : dict) : option value :=
  match node_at keys tree with
  | Some node => dict_get "owner" node
  | None => None
  end.

(** What a command printed: the lines of [stdout] it added. *)
Definition printed (before after : ShellEmulator) : list string :=
  skipn (length (stdout before)) (stdout after).

Definition last_status (s : ShellEmulator) : option (string * string) :=
  match rev (log_actions s) with
  | e :: _ => Some (status e, message e)
  | [] => None
  end.

(* ================================================================= *)
(** ** Properties of nodes and of trees *)

(** A node is a File when its ["type"] is ["file"], which is the test of
    [uniq]. *)
Definition is_file (node : dict) : Prop :=
  dict_get "type" node = Some (VStr "file").

(** The child of [node] named [part]: the entry has to be a dictionary,
    which is the test of [traverse_path]. *)
Definition child (part : string) (node : dict) : option dict :=
  match dict_get part node with
  | Some (VDict d) => Some d
  | _ => None
  end.

(** A node without child nodes: the files that [load_tar] creates are of
    this kind, as long as no later member is stored beneath them. *)
Definition childless (node : dict) : Prop :=
  forall part, child part node = None.

(** A File whose content is text, so that [uniq] can split it. *)
Definition text_file (node : dict) : Prop :=
  is_file node -> exists content, dict_get "content" node = Some (VStr content).

(** An owner, where a node has one, is the default identity. *)
Definition owner_is_default (node : dict) : Prop :=
  forall o, dict_get "owner" node = Some (VStr o) -> o = default_owner.

(** [P] holds of every node of the tree, the root included. *)
Definition every_node (P : dict -> Prop) (tree : dict) : Prop :=
  forall keys node, node_at keys tree = Some node -> P node.

(** The same, decided for a boolean test, by recursion on the tree. *)
Fixpoint all_nodes (p : dict -> bool) (v : value) : bool :=
  match v with
  | VStr _ => true
  | VDict d => p d && forallb (fun kv => all_nodes p (snd kv)) d
  end.

Definition text_fileb (node : dict) : bool :=
  match dict_get "type" node with
  | Some (VStr ty) =>
      if String.eqb ty "file" then
        match dict_get "content" node with
        | Some (VStr _) => true
        | _ => false
        end
      else true
  | _ => true
  end.

(** The parts of a path that [traverse_path] does not skip. *)
Definition used_parts (parts : list string) : list string :=
  filter (fun part => negb (is_empty part)) parts.

(** Removing duplicates while keeping the first occurrence of each line,
    in the words of the description of [uniq]. *)
Fixpoint first_occurrences (lines : list string) : list string :=
  match lines with
  | [] => []
  | x :: rest => x :: remove string_dec x (first_occurrences rest)
  end.

(** A line that is typed with at least one word. *)
Definition words (line : string) : list string :=
  Py.split_ws (Py.strip Py.isspace line).

(** [s'] has the log of [s] and one more entry. *)
Definition logs_once (s s' : ShellEmulator) : Prop :=
  exists e, log_actions s' = (log_actions s ++ [e])%list.

(** A line with a first word, which is not [exit]. *)
Definition dispatched (line : string) : Prop :=
  exists cmd args, words line = cmd :: args /\ cmd <> "exit".

(** A string without a line boundary, as the lines of [splitlines]
    are. *)
Fixpoint break_free (s : string) : bool :=
  match s with
  | EmptyString => true
  | String c s' => negb (Py.islinebreak c) && break_free s'
  end.

(** A string whose only line boundaries are line feeds. *)
Fixpoint only_lf (s : string) : bool :=
  match s with
  | EmptyString => true
  | String c s' => (negb (Py.islinebreak c) || Ascii.eqb c Py.LF) && only_lf s'
  end.

(** The characters of the lines of [l], counting one more for each
    line: one more than the length of their join, when there is a line. *)
Fixpoint weight (l : list string) : nat :=
  match l with
  | [] => 0
  | x :: rest => S (String.length x) + weight rest
  end.

(** The text of the File that [path] resolves to: the node has the
    ["type"] ["file"] and a string as its ["content"]. *)
Definition file_content (tree : dict) (path : string) : option string :=
  match traverse_path tree path with
  | Some node =>
      match dict_get "type" node, dict_get "content" node with
      | Some (VStr ty), Some (VStr content) =>
          if String.eqb ty "file" then Some content else None
      | _, _ => None
      end
  | None => None
  end.

(** The two orders on lines that the keys of a sort induce. *)
Definition key_le (key : string -> nat) (a b : string) : Prop := key a <= key b.
Definition key_lt (key : string -> nat) (a b : string) : Prop := key a < key b.

(** The last character of [s] is a line boundary. *)
Definition last_is_break (s : string) : bool :=
  match Py.last_char s with
  | Some c => Py.islinebreak c
  | None => false
  end.

(** The lines [l] without the empty line that may end them: what
    [splitlines] returns for their join. *)
Fixpoint drop_final_empty (l : list string) : list string :=
  match l with
  | [] => []
  | [x] => if is_empty x then [] else [x]
  | x :: rest => x :: drop_final_empty rest
  end.

(** The path that [cd path] resolves: the normalized combination of the
    current path and [path]. *)
Definition cd_target (P : Platform) (s : ShellEmulator) (path : string)
  : string :=
  os_path_normpath P (os_path_join P (current_path s) path).

(** Runs a concrete session: the states are computed one after the
    other. *)
Ltac run_session :=
  repeat eexists; repeat split; try (vm_compute; reflexivity).

(** [c in s]. *)
Fixpoint has_char (c : ascii) (s : string) : bool :=
  match s with
  | EmptyString => false
  | String c' s' => Ascii.eqb c' c || has_char c s'
  end.

(** No key of the node holds a slash. *)
Definition slash_free_keys (node : dict) : Prop :=
  forall k v, dict_get k node = Some v -> has_char Py.SLASH k = false.

(** The parts of the name of a member. *)
Definition member_parts (m : member) : list string :=
  Py.split Py.SLASH (member_name m).

(** A node without attributes: it holds no string under any key, so
    whatever key it has holds a child node. *)
Definition attribute_free (node : dict) : Prop :=
  forall key t, dict_get key node <> Some (VStr t).

(** A member that is a file or a directory has [keys] as the parts of
    its name: [load_tar] has assigned a node of its own making there. *)
Definition stored_at (members : list member) (keys : list string) : Prop :=
  exists m, In m members /\ kind m <> IsOther /\ member_parts m = keys.

(** The key ["owner"] holds no child node. *)
Definition owner_is_no_child (node : dict) : Prop :=
  forall d, dict_get "owner" node <> Some (VDict d).

(* ================================================================= *)
(** ** Notions used by the properties of whole sessions *)

(** The session as a command has left it, however the command ended. *)
Definition final_state (o : outcome) : ShellEmulator :=
  match o with
  | Returned s => s
  | Exited s => s
  | Raised _ s => s
  end.

(** The three keys under which [load_tar] stores strings. *)
Definition reserved_key (k : string) : bool :=
  String.eqb k "type" || String.eqb k "content" || String.eqb k "owner".

(** The strings of a node sit under those keys only. *)
Definition strings_reserved (node : dict) : Prop :=
  forall k t, dict_get k node = Some (VStr t) -> reserved_key k = true.

(** An entry as [log] is called with: a success without a message, or an
    error with one. *)
Definition entry_ok (e : LogEntry) : Prop :=
  (status e = success /\ message e = EmptyString) \/
  (status e = error /\ message e <> EmptyString).

(** The node that [load_tar] creates for a member that is a file or a
    directory. *)
Definition member_node (k : member_kind) : option dict :=
  match k with
  | IsFile content =>
      Some [("type", VStr "file"); ("content", VStr content);
            ("owner", VStr default_owner)]
  | IsDir => Some [("type", VStr "dir"); ("owner", VStr default_owner)]
  | IsOther => None
  end.

(** The content of the member can be decoded, and no part of its name
    but the last is one of the keys under which a node holds a string. *)
Definition loadable (m : tar_member) : Prop :=
  (exists k, decoded (tar_kind_of m) = Ok k) /\
  Forall (fun part => reserved_key part = false) (removelast (tar_parts m)).

(** Decides which of the two shapes of [entry_ok] a call of [log] has. *)
Ltac entry_shape :=
  solve [ left; split; reflexivity
        | right; split; [reflexivity | discriminate] ].

(** A line whose first word is [exit]. *)
Definition is_exit (line : string) : Prop :=
  exists args, words line = "exit" :: args.

(** The user a login with the answer [answer] gives. *)
Definition login_user (answer : string) : string :=
  if is_empty (Py.strip Py.isspace answer) then "guest"
  else Py.strip Py.isspace answer.

(* ================================================================= *)
(** ** The stand-in of [test_shell_emulator.py]

    The tests run against a class of their own, with a fixed table of
    two directories.  Its state is the field [current_dir]. *)

Module TestDouble.

Definition filesystem : list (string * list string) :=
  [("/", ["file1.txt"; "subdir"]); ("/subdir", ["file2.txt"])].

(** [filesystem.get(key, [])]. *)
Fixpoint get (key : string) (table : list (string * list string))
  : list string :=
  match table with
  | [] => []
  | (k, names) :: rest => if String.eqb k key then names else get key rest
  end.

(** [__init__]. *)
Definition init : string := "/".

(** [ls]. *)
Definition ls (current_dir : string) : list string :=
  get current_dir filesystem.

(** [cd]: the new [current_dir], or [None] where the method raises
    [FileNotFoundError]. *)
Definition cd (path : string) (current_dir : string) : option string :=
  if String.eqb path ".." then Some "/"
  else if String.eqb path "subdir" then Some "/subdir"
  else None.

(** A sequence of calls of [cd], the caller going on after an exception,
    which leaves [current_dir] as it was. *)
Fixpoint cds (paths : list string) (current_dir : string) : string :=
  match paths with
  | [] => current_dir
  | path :: rest =>
      match cd path current_dir with
      | Some d => cds rest d
      | None => cds rest current_dir
      end
  end.

End TestDouble.

(** The key that loading a member makes sure the root has: the first
    part of its name, unless the member is neither a file nor a directory
    and its name has one part only, in which case nothing is stored. *)
Definition root_name (m : member) : list string :=
  match member_parts m, kind m with
  | [_], IsOther => []
  | part :: _, _ => [part]
  | [], _ => []
  end.

Definition root_names (members : list member) : list string :=
  flat_map root_name members.

(* ================================================================= *)
(** * Properties *)

(** ** The library functions on the inputs the sessions below use *)

Example split_ws_command :
  words "  chown  bob   notes.txt " = ["chown"; "bob"; "notes.txt"].
Proof. reflexivity. Qed.

Example split_ws_blank : words "   " = [].
Proof. reflexivity. Qed.

Example splitlines_boundaries :
  Py.splitlines ("a" ++ Py.chr Py.CR ++ nl ++ "b" ++ nl ++ nl ++ "c")
  = ["a"; "b"; EmptyString; "c"].
Proof. reflexivity. Qed.

Example unique_lines_scenario :
  unique_lines scenario_content = "x" ++ nl ++ "y".
Proof. reflexivity. Qed.

Example path_parts_backslashes :
  path_parts ("\a\\b\c" ++ NtPath.sep) = ["a"; EmptyString; "b"; "c"].
Proof. reflexivity. Qed.

Example path_parts_slashes : path_parts "/a/b" = ["/a/b"].
Proof. reflexivity. Qed.

Example nt_cd_target : NtPath.normpath (NtPath.join "/" "a") = "\a".
Proof. reflexivity. Qed.

Example nt_cd_parent : NtPath.normpath (NtPath.join "\a\b" "..") = "\a".
Proof. reflexivity. Qed.

Example nt_cd_dot : NtPath.normpath (NtPath.join "/" ".") = NtPath.sep.
Proof. reflexivity. Qed.

Example nt_chown_target : NtPath.join "\a" "f.txt" = "\a\f.txt".
Proof. reflexivity. Qed.

Example posix_cd_target : PosixPath.normpath (PosixPath.join "/" "a") = "/a".
Proof. reflexivity. Qed.

Example posix_cd_parent :
  PosixPath.normpath (PosixPath.join "/a/b" "../c") = "/a/c".
Proof. reflexivity. Qed.

(** ** Dictionaries *)

Lemma dict_get_set_same (k : string) (v : value) (d : dict) :
  dict_get k (dict_set k v d) = Some v.
Proof.
  induction d as [|[k' v'] d IH]; simpl.
  - now rewrite String.eqb_refl.
  - destruct (String.eqb k' k) eqn:E; simpl.
    + now rewrite String.eqb_refl.
    + now rewrite E.
Qed.

Lemma dict_get_set_other (k k' : string) (v : value) (d : dict) :
  k' <> k -> dict_get k' (dict_set k v d) = dict_get k' d.
Proof.
  intros Hne.
  induction d as [|[k0 v0] d IH]; simpl.
  - destruct (String.eqb k k') eqn:E; [|reflexivity].
    apply String.eqb_eq in E. congruence.
  - destruct (String.eqb k0 k) eqn:E; simpl.
    + apply String.eqb_eq in E. subst k0.
      destruct (String.eqb k k') eqn:E'; [|reflexivity].
      apply String.eqb_eq in E'. congruence.
    + destruct (String.eqb k0 k'); [reflexivity|exact IH].
Qed.

Lemma dict_mem_true (k : string) (d : dict) :
  dict_mem k d = true <-> exists v, dict_get k d = Some v.
Proof.
  unfold dict_mem. destruct (dict_get k d) as [v|].
  - split; [eauto|reflexivity].
  - split; [discriminate|intros [v Hv]; discriminate].
Qed.

Lemma child_set_same (part : string) (sub : dict) (node : dict) :
  child part (dict_set part (VDict sub) node) = Some sub.
Proof. unfold child. now rewrite dict_get_set_same. Qed.

Lemma child_set_other (part k : string) (v : value) (node : dict) :
  part <> k -> child part (dict_set k v node) = child part node.
Proof. intros H. unfold child. now rewrite dict_get_set_other. Qed.

Lemma child_set_str (part k : string) (t : string) (node : dict) :
  child part (dict_set k (VStr t) node) =
  if String.eqb part k then None else child part node.
Proof.
  destruct (String.eqb part k) eqn:E.
  - apply String.eqb_eq in E. subst. unfold child.
    now rewrite dict_get_set_same.
  - apply String.eqb_neq in E. now apply child_set_other.
Qed.

(** ** Traversal *)

Lemma walk_child (part : string) (rest : list string) (node : dict) :
  is_empty part = false ->
  walk (part :: rest) node =
  match child part node with
  | Some d => walk rest d
  | None => None
  end.
Proof.
  intros H. simpl. rewrite H. unfold child.
  destruct (dict_get part node) as [[t|d]|]; reflexivity.
Qed.

Lemma walk_app (pre post : list string) (node : dict) :
  walk (pre ++ post) node =
  match walk pre node with
  | Some d => walk post d
  | None => None
  end.
Proof.
  revert node. induction pre as [|part pre IH]; intros node; simpl.
  - reflexivity.
  - destruct (is_empty part); [apply IH|].
    destruct (dict_get part node) as [[t|d]|]; auto.
Qed.

(** [traverse_path] follows exactly the parts it does not skip. *)
Lemma walk_used_parts (parts : list string) (node : dict) :
  walk parts node = node_at (used_parts parts) node.
Proof.
  revert node. induction parts as [|part parts IH]; intros node; simpl.
  - reflexivity.
  - destruct (is_empty part) eqn:E; simpl.
    + apply IH.
    + destruct (dict_get part node) as [[t|d]|]; auto.
Qed.

(** ** The empty path and the backslash alone *)

(** Whatever the tree, [traverse_path] returns the root dictionary for
    the empty path and for the path that consists of the one character it
    splits on, the backslash. *)
Lemma traverse_path_root (tree : dict) :
  traverse_path tree EmptyString = Some tree /\
  traverse_path tree (Py.chr Py.BACKSLASH) = Some tree.
Proof. split; reflexivity. Qed.

(** ** C5: the scenario of the directory [a/] and the file [a/f.txt] *)

(** C5, as stated, fails on the code, whether the directory is named
    [a/] or [a].  [uniq f.txt] looks [f.txt] up in the root dictionary,
    which holds [a] only: after a [cd a] that has succeeded it reports
    that there is no such file and leaves the content as it was.  With
    the POSIX path functions already [cd a] fails. *)
Lemma scenario_uniq_reports_no_such_file :
  Forall (fun members =>
    exists s0 s1 s2 u1,
      session_on members = Some s0 /\
      execute_command windows "cd a" s0 = Returned s1 /\
      execute_command windows "uniq f.txt" s1 = Returned s2 /\
      last_status s2 = Some (error, "No such file") /\
      content_at ["a"; "f.txt"] (fs s2) = Some (VStr scenario_content) /\
      execute_command unix "cd a" s0 = Returned u1 /\
      last_status u1 = Some (error, "No such directory") /\
      current_path u1 = "/")
    [scenario_members; scenario_members_as_read].
Proof. repeat apply Forall_cons; try apply Forall_nil; run_session. Qed.

(** C5, amended.  On the tree of the scenario and with the Windows path
    functions, [cd a] succeeds and the current path becomes [\a];
    [uniq f.txt] reports that there is no such file and changes nothing;
    [uniq a\f.txt], the path from the root, succeeds and leaves the
    content [x\ny], and so does the same command once more. *)
Theorem scenario_cd_then_uniq :
  Forall (fun members =>
    exists s0 s1 s2 s3 s4,
      session_on members = Some s0 /\
      execute_command windows "cd a" s0 = Returned s1 /\
      current_path s1 = "\a" /\
      last_status s1 = Some (success, EmptyString) /\
      execute_command windows "uniq f.txt" s1 = Returned s2 /\
      last_status s2 = Some (error, "No such file") /\
      fs s2 = fs s1 /\
      execute_command windows "uniq a\f.txt" s2 = Returned s3 /\
      last_status s3 = Some (success, EmptyString) /\
      printed s2 s3 = ["x" ++ nl ++ "y"] /\
      content_at ["a"; "f.txt"] (fs s3) = Some (VStr ("x" ++ nl ++ "y")) /\
      execute_command windows "uniq a\f.txt" s3 = Returned s4 /\
      last_status s4 = Some (success, EmptyString) /\
      printed s3 s4 = ["x" ++ nl ++ "y"] /\
      content_at ["a"; "f.txt"] (fs s4) = Some (VStr ("x" ++ nl ++ "y")))
    [scenario_members; scenario_members_as_read].
Proof. repeat apply Forall_cons; try apply Forall_nil; run_session. Qed.

(** ** C2: [cd] *)

Section Cd.

Variable P : Platform.

(** When the normalized combination does not resolve, [cd] prints and
    logs the error and keeps the current path. *)
Lemma cd_unresolved (s : ShellEmulator) (path : string) :
  traverse_path (fs s) (cd_target P s path) = None ->
  current_path (cd P [path] s) = current_path s /\
  fs (cd P [path] s) = fs s /\
  printed s (cd P [path] s) = ["No such directory: " ++ path] /\
  last_status (cd P [path] s) = Some (error, "No such directory").
Proof.
  intros H. unfold cd, cd_target in *. rewrite H.
  unfold printed, last_status. simpl.
  rewrite skipn_app, skipn_all, Nat.sub_diag, rev_app_distr. simpl.
  repeat split.
Qed.

(** When it resolves, to whatever node, the current path becomes the
    normalized combination. *)
Lemma cd_resolved (s : ShellEmulator) (path : string) (node : dict) :
  traverse_path (fs s) (cd_target P s path) = Some node ->
  current_path (cd P [path] s) = cd_target P s path /\
  fs (cd P [path] s) = fs s /\
  last_status (cd P [path] s) = Some (success, EmptyString).
Proof.
  intros H. unfold cd, cd_target in *. rewrite H.
  unfold last_status. simpl. rewrite rev_app_distr. simpl.
  repeat split.
Qed.

End Cd.

(** C2 at its failing input.  The archive holds the one file [f]; on
    Windows [cd f] resolves [\f] to the File node, which is not [None],
    so that the command succeeds and the current path becomes [\f], a
    File. *)
Theorem cd_enters_a_file :
  exists s0 s1 node,
    session_on [ {| member_name := "f"; kind := IsFile "x" |} ] = Some s0 /\
    execute_command windows "cd f" s0 = Returned s1 /\
    current_path s1 = "\f" /\
    last_status s1 = Some (success, EmptyString) /\
    printed s0 s1 = [] /\
    traverse_path (fs s1) (current_path s1) = Some node /\
    is_file node.
Proof. run_session. Qed.

(** ** C7: [ls] *)

Lemma stdout_fold_print (names : list string) (s : ShellEmulator) :
  stdout (fold_left (fun s' name => print name s') names s) =
  (stdout s ++ names)%list.
Proof.
  revert s. induction names as [|n names IH]; intros s; simpl.
  - now rewrite app_nil_r.
  - rewrite IH. simpl. now rewrite <- app_assoc.
Qed.

(** [ls] prints the keys of the dictionary the current path resolves
    to, in their order in the dictionary and nothing else. *)
Lemma ls_prints_keys (P : Platform) (s : ShellEmulator) (node : dict) :
  traverse_path (fs s) (current_path s) = Some node ->
  printed s (ls P s) = dict_keys node /\
  last_status (ls P s) = Some (success, EmptyString).
Proof.
  intros H. unfold ls. rewrite H. unfold printed, last_status. simpl.
  rewrite stdout_fold_print, skipn_app, skipn_all, Nat.sub_diag.
  rewrite rev_app_distr. simpl. split; reflexivity.
Qed.

(** C7 at its failing input.  The archive holds the directory [a] and
    the file [a/f.txt]; after [cd a] on Windows, [ls] prints the keys
    [type] and [owner] of the directory's own dictionary before the one
    child [f.txt]. *)
Theorem ls_prints_metadata_keys :
  exists s0 s1 s2,
    session_on [ {| member_name := "a"; kind := IsDir |};
                 {| member_name := "a/f.txt"; kind := IsFile "x" |} ] = Some s0 /\
    execute_command windows "cd a" s0 = Returned s1 /\
    execute_command windows "ls" s1 = Returned s2 /\
    last_status s2 = Some (success, EmptyString) /\
    printed s1 s2 = ["type"; "owner"; "f.txt"].
Proof. run_session. Qed.

(** ** C8: [chown] *)

(** The node that [walk] returns is the one [assign_at] assigns to. *)
Lemma walk_assign_at (parts : list string) (key : string) (v : value)
    (tree node : dict) :
  walk parts tree = Some node ->
  walk parts (assign_at parts key v tree) = Some (dict_set key v node).
Proof.
  revert tree. induction parts as [|part parts IH]; intros tree H; simpl in *.
  - now inversion H.
  - destruct (is_empty part) eqn:E; [now apply IH|].
    destruct (dict_get part tree) as [[t|d]|] eqn:G; try discriminate.
    rewrite dict_get_set_same. now apply IH.
Qed.

(** C8, as stated, fails on the code.  The archive holds the file
    [a/f.txt] only, so that the directory [a] was created by [setdefault]
    and has no ["owner"] key.  On Windows, once [cd .] has made the
    current path [\], the path of [chown bob a] resolves, to that
    directory, and yet no owner is set: the command reports that it
    cannot change the owner. *)
Lemma chown_refused_on_implicit_directory :
  exists s0 s1 s2 node,
    session_on [ {| member_name := "a/f.txt"; kind := IsFile "x" |} ] = Some s0 /\
    execute_command windows "cd ." s0 = Returned s1 /\
    traverse_path (fs s1) (os_path_join windows (current_path s1) "a")
      = Some node /\
    execute_command windows "chown bob a" s1 = Returned s2 /\
    last_status s2 = Some (error, "Cannot change owner") /\
    owner_at ["a"] (fs s2) = None /\
    fs s2 = fs s1.
Proof. run_session. Qed.

(** C8, amended.  For every [chown <owner> <path>], with [target] the
    path joined to the current path: when [target] does not resolve, the
    command logs the status [error] with "No such file or directory" and
    leaves the tree as it is; when it resolves to a node with an
    ["owner"] key, File or Directory alike, [target] resolves afterwards
    to that node with its owner set to [<owner>], and the status logged is
    [success]; when it resolves to a node without that key, the command
    logs the status [error] with "Cannot change owner" and leaves the tree
    as it is. *)
Theorem chown_outcome (P : Platform) (s : ShellEmulator) (owner path : string) :
  let target := os_path_join P (current_path s) path in
  let s' := chown P [owner; path] s in
  current_path s' = current_path s /\
  match traverse_path (fs s) target with
  | None =>
      fs s' = fs s /\
      last_status s' = Some (error, "No such file or directory") /\
      printed s s' = ["No such file or directory: " ++ path]
  | Some node =>
      if dict_mem "owner" node then
        traverse_path (fs s') target
          = Some (dict_set "owner" (VStr owner) node) /\
        last_status s' = Some (success, EmptyString)
      else
        fs s' = fs s /\
        last_status s' = Some (error, "Cannot change owner") /\
        printed s s' = ["Cannot change owner of " ++ path]
  end.
Proof.
  intros target s'. subst s'. unfold chown. fold target.
  destruct (traverse_path (fs s) target) as [node|] eqn:T.
  - destruct (dict_mem "owner" node) eqn:M; simpl.
    + split; [reflexivity|]. unfold last_status. simpl.
      rewrite rev_app_distr. simpl. split; [|reflexivity].
      unfold traverse_path in *. now apply walk_assign_at.
    + unfold printed, last_status. simpl.
      rewrite skipn_app, skipn_all, Nat.sub_diag, rev_app_distr. simpl.
      repeat split.
  - unfold printed, last_status. simpl.
    rewrite skipn_app, skipn_all, Nat.sub_diag, rev_app_distr. simpl.
    repeat split.
Qed.

(** ** C3: owners after loading *)

Lemma split_not_nil (sep : ascii) (s : string) : Py.split sep s <> [].
Proof.
  destruct s as [|c s]; simpl; [discriminate|].
  destruct (Ascii.eqb c sep); [discriminate|].
  destruct (Py.split sep s); discriminate.
Qed.

Section EveryNode.

Variable Inv : dict -> Prop.

Lemma every_node_root (tree : dict) : every_node Inv tree -> Inv tree.
Proof. intros H. now apply (H []). Qed.

Lemma every_node_child (part : string) (tree d : dict) :
  every_node Inv tree ->
  dict_get part tree = Some (VDict d) ->
  every_node Inv d.
Proof.
  intros H G keys node Hn. apply (H (part :: keys)). simpl. now rewrite G.
Qed.

Lemma every_node_empty : Inv [] -> every_node Inv [].
Proof.
  intros H [|k keys] node Hn; simpl in Hn.
  - inversion Hn; subst; exact H.
  - discriminate.
Qed.

(** A tree whose root holds strings only. *)
Lemma every_node_flat (d : dict) :
  Inv d -> (forall part, child part d = None) -> every_node Inv d.
Proof.
  intros H Hflat [|k keys] node Hn; simpl in Hn.
  - inversion Hn; subst; exact H.
  - specialize (Hflat k). unfold child in Hflat.
    destruct (dict_get k d) as [[t|c]|]; discriminate.
Qed.

Lemma every_node_set_child (part : string) (sub tree : dict) :
  Inv (dict_set part (VDict sub) tree) ->
  every_node Inv sub ->
  every_node Inv tree ->
  every_node Inv (dict_set part (VDict sub) tree).
Proof.
  intros Hroot Hsub Htree [|k keys] node Hn; simpl in Hn.
  - inversion Hn; subst; exact Hroot.
  - destruct (string_dec k part) as [->|Hne].
    + rewrite dict_get_set_same in Hn. now apply (Hsub keys).
    + rewrite dict_get_set_other in Hn by assumption.
      apply (Htree (k :: keys)). exact Hn.
Qed.

Lemma every_node_set_str (key t : string) (tree : dict) :
  Inv (dict_set key (VStr t) tree) ->
  every_node Inv tree ->
  every_node Inv (dict_set key (VStr t) tree).
Proof.
  intros Hroot Htree [|k keys] node Hn; simpl in Hn.
  - inversion Hn; subst; exact Hroot.
  - destruct (string_dec k key) as [->|Hne].
    + rewrite dict_get_set_same in Hn. discriminate.
    + rewrite dict_get_set_other in Hn by assumption.
      apply (Htree (k :: keys)). exact Hn.
Qed.

(** What [load_tar] needs of an invariant of nodes: it holds of the
    three dictionaries the loader creates, and storing a child under a
    name that is [Good] keeps it. *)
Variable Good : string -> Prop.
Hypothesis Inv_empty : Inv [].
Hypothesis Inv_file : forall content,
  every_node Inv
    [("type", VStr "file"); ("content", VStr content);
     ("owner", VStr default_owner)].
Hypothesis Inv_dir :
  every_node Inv [("type", VStr "dir"); ("owner", VStr default_owner)].
Hypothesis Inv_set_child : forall part sub node,
  Good part -> Inv node -> Inv (dict_set part (VDict sub) node).

Lemma store_every_node (dirs : list string) (name : string)
    (k : member_kind) (node tree : dict) :
  Forall Good dirs -> Good name ->
  every_node Inv node ->
  store dirs name k node = Ok tree ->
  every_node Inv tree.
Proof.
  intros Hdirs Hname. revert node tree.
  induction Hdirs as [|part rest Hpart Hrest IH];
    intros node tree Hnode Hs; simpl in Hs.
  - inversion Hs; subst tree.
    destruct k as [content| |]; simpl; auto;
      apply every_node_set_child; auto using every_node_root.
  - destruct (dict_get part node) as [[t|d]|] eqn:G.
    + destruct rest, k; try discriminate. now inversion Hs; subst.
    + destruct (store rest name k d) as [sub|e] eqn:S; [|discriminate].
      simpl in Hs. inversion Hs; subst tree.
      apply every_node_set_child; auto using every_node_root.
      eapply IH; [|exact S]. eapply every_node_child; eauto.
    + destruct (store rest name k []) as [sub|e] eqn:S; [|discriminate].
      simpl in Hs. inversion Hs; subst tree.
      apply every_node_set_child; auto using every_node_root.
      eapply IH; [|exact S]. now apply every_node_empty.
Qed.

Lemma load_members_every_node (members : list member) (fs0 tree : dict) :
  Forall (fun m => Forall Good (member_parts m)) members ->
  every_node Inv fs0 ->
  load_members members fs0 = Ok tree ->
  every_node Inv tree.
Proof.
  intros Hgood. revert fs0.
  induction Hgood as [|m members Hm Hgood IH]; intros fs0 H0 Hl.
  - simpl in Hl. now inversion Hl; subst.
  - simpl in Hl. destruct (load_member fs0 m) as [fs1|e] eqn:L; [|discriminate].
    simpl in Hl. apply (IH fs1); [|exact Hl].
    unfold load_member in L. unfold member_parts in Hm.
    rewrite (app_removelast_last EmptyString (split_not_nil Py.SLASH (member_name m)))
      in Hm.
    apply Forall_app in Hm. destruct Hm as [Hdirs Hname].
    apply Forall_inv in Hname.
    exact (store_every_node _ _ _ _ _ Hdirs Hname H0 L).
Qed.

End EveryNode.

Lemma child_cons_str (part k t : string) (d : dict) :
  child part ((k, VStr t) :: d) =
  if String.eqb k part then None else child part d.
Proof. unfold child. simpl. now destruct (String.eqb k part). Qed.

Lemma child_nil (part : string) : child part [] = None.
Proof. reflexivity. Qed.

Lemma owner_is_default_set_child (part : string) (sub node : dict) :
  owner_is_default node -> owner_is_default (dict_set part (VDict sub) node).
Proof.
  intros H o Ho. destruct (string_dec "owner" part) as [<-|Hne].
  - rewrite dict_get_set_same in Ho. discriminate.
  - rewrite dict_get_set_other in Ho by assumption. now apply H.
Qed.

(** The node that a file or directory member is stored as has the
    default owner. *)
Lemma store_sets_owner (dirs : list string) (name : string) (k : member_kind)
    (node tree : dict) :
  k <> IsOther ->
  store dirs name k node = Ok tree ->
  owner_at (dirs ++ [name]) tree = Some (VStr default_owner).
Proof.
  intros Hk. revert node tree.
  induction dirs as [|part rest IH]; intros node tree Hs; simpl in Hs.
  - inversion Hs; subst tree. unfold owner_at. simpl.
    destruct k as [content| |]; simpl;
      try rewrite dict_get_set_same; try reflexivity.
    congruence.
  - unfold owner_at in *. simpl.
    destruct (dict_get part node) as [[t|d]|] eqn:G.
    + destruct rest, k; try discriminate. congruence.
    + destruct (store rest name k d) as [sub|e] eqn:S; [|discriminate].
      simpl in Hs. inversion Hs; subst tree.
      rewrite dict_get_set_same. now apply (IH d).
    + destruct (store rest name k []) as [sub|e] eqn:S; [|discriminate].
      simpl in Hs. inversion Hs; subst tree.
      rewrite dict_get_set_same. now apply (IH []).
Qed.

Lemma flat_file_literal (content part : string) :
  child part [("type", VStr "file"); ("content", VStr content);
              ("owner", VStr default_owner)] = None.
Proof.
  rewrite !child_cons_str, child_nil.
  repeat (destruct (String.eqb _ part); [reflexivity|]). reflexivity.
Qed.

Lemma flat_dir_literal (part : string) :
  child part [("type", VStr "dir"); ("owner", VStr default_owner)] = None.
Proof.
  rewrite !child_cons_str, child_nil.
  repeat (destruct (String.eqb _ part); [reflexivity|]). reflexivity.
Qed.

Lemma kind_is_other (k : member_kind) : k = IsOther \/ k <> IsOther.
Proof. destruct k; [right|right|left]; congruence. Qed.

Lemma attribute_free_set_child (part : string) (sub node : dict) :
  attribute_free node -> attribute_free (dict_set part (VDict sub) node).
Proof.
  intros H key t. destruct (string_dec key part) as [->|Hne].
  - rewrite dict_get_set_same. discriminate.
  - rewrite dict_get_set_other by assumption. apply H.
Qed.

Lemma attribute_free_empty : attribute_free [].
Proof. intros key t. discriminate. Qed.

Lemma node_at_child (key : string) (keys : list string) (node : dict) :
  node_at (key :: keys) node =
  match child key node with
  | Some d => node_at keys d
  | None => None
  end.
Proof.
  unfold child. simpl. now destruct (dict_get key node) as [[t|d]|].
Qed.

(** Nothing lies beneath the node that a member has just been stored
    as. *)
Lemma node_at_leaf (name key : string) (keys : list string)
    (k : member_kind) (node : dict) :
  k <> IsOther ->
  node_at (name :: key :: keys) (store_leaf name k node) = None.
Proof.
  intros Hk. rewrite node_at_child. unfold child.
  destruct k as [content| |]; [| |congruence]; simpl store_leaf;
    unfold file_node, dir_node; rewrite dict_get_set_same;
    rewrite node_at_child.
  - now rewrite flat_file_literal.
  - now rewrite flat_dir_literal.
Qed.

(** The nodes that [store] leaves with an attribute are those that had
    one before, and the node of the member when one is stored. *)
Lemma store_attribute_free (dirs : list string) (name : string)
    (k : member_kind) :
  forall (E : list string -> Prop) (node tree : dict),
  store dirs name k node = Ok tree ->
  (forall keys n, node_at keys node = Some n -> E keys \/ attribute_free n) ->
  forall keys n,
    node_at keys tree = Some n ->
    E keys \/ (k <> IsOther /\ keys = (dirs ++ [name])%list) \/ attribute_free n.
Proof.
  induction dirs as [|part rest IH]; intros E node tree Hs H keys n Hn.
  - simpl in Hs. inversion Hs; subst tree; clear Hs.
    destruct (kind_is_other k) as [->|Hk].
    { simpl in Hn. destruct (H keys n Hn); auto. }
    assert (Hset : exists leaf, store_leaf name k node
                                = dict_set name (VDict leaf) node).
    { destruct k as [content| |]; [| |congruence]; simpl;
        unfold file_node, dir_node; eauto. }
    destruct keys as [|k1 [|k2 ks]].
    + simpl in Hn. inversion Hn; subst n.
      destruct (H [] node eq_refl) as [He|Hf]; [now left|].
      right; right. destruct Hset as [leaf ->].
      now apply attribute_free_set_child.
    + destruct (string_dec k1 name) as [->|Hne]; [right; left; now split|].
      destruct Hset as [leaf Hset]. rewrite Hset in Hn. simpl in Hn.
      rewrite dict_get_set_other in Hn by assumption.
      destruct (H [k1] n Hn); auto.
    + destruct (string_dec k1 name) as [->|Hne].
      * rewrite node_at_leaf in Hn by assumption. discriminate.
      * destruct Hset as [leaf Hset]. rewrite Hset in Hn.
        rewrite node_at_child in Hn. unfold child in Hn.
        rewrite dict_get_set_other in Hn by assumption.
        fold (child k1 node) in Hn. rewrite <- node_at_child in Hn.
        destruct (H _ n Hn); auto.
  - simpl in Hs.
    assert (Hsub : forall old sub,
      (forall ks m, node_at ks old = Some m ->
                    E (part :: ks) \/ attribute_free m) ->
      store rest name k old = Ok sub ->
      tree = dict_set part (VDict sub) node ->
      E keys \/ (k <> IsOther /\ keys = ((part :: rest) ++ [name])%list)
      \/ attribute_free n).
    { intros old sub Hold S ->. destruct keys as [|k1 ks].
      - simpl in Hn. inversion Hn; subst n.
        destruct (H [] node eq_refl) as [He|Hf]; [now left|].
        right; right. now apply attribute_free_set_child.
      - simpl in Hn. destruct (string_dec k1 part) as [->|Hne].
        + rewrite dict_get_set_same in Hn.
          destruct (IH (fun ks => E (part :: ks)) old sub S Hold ks n Hn)
            as [He|[[Hk ->]|Hf]]; auto.
        + rewrite dict_get_set_other in Hn by assumption.
          destruct (H (k1 :: ks) n Hn); auto. }
    destruct (dict_get part node) as [[t|d]|] eqn:G.
    + destruct rest, k; try discriminate. inversion Hs; subst tree.
      destruct (H keys n Hn); auto.
    + destruct (store rest name k d) as [sub|e] eqn:S; [|discriminate].
      simpl in Hs. inversion Hs. apply (Hsub d sub); auto.
      intros ks m Hm. apply (H (part :: ks)). simpl. now rewrite G.
    + destruct (store rest name k []) as [sub|e] eqn:S; [|discriminate].
      simpl in Hs. inversion Hs. apply (Hsub [] sub); auto.
      intros [|k0 ks] m Hm; simpl in Hm; [|discriminate].
      inversion Hm. right. apply attribute_free_empty.
Qed.

Lemma load_members_attribute_free (members : list member) :
  forall (E : list string -> Prop) (fs0 tree : dict),
  load_members members fs0 = Ok tree ->
  (forall keys n, node_at keys fs0 = Some n -> E keys \/ attribute_free n) ->
  forall keys n,
    node_at keys tree = Some n ->
    E keys \/ stored_at members keys \/ attribute_free n.
Proof.
  induction members as [|m members IH]; intros E fs0 tree Hl H keys n Hn.
  - simpl in Hl. inversion Hl; subst tree. destruct (H keys n Hn); auto.
  - simpl in Hl. destruct (load_member fs0 m) as [fs1|e] eqn:L; [|discriminate].
    simpl in Hl.
    assert (H1 : forall ks x, node_at ks fs1 = Some x ->
      (E ks \/ (kind m <> IsOther /\ ks = member_parts m))
      \/ attribute_free x).
    { intros ks x Hx. unfold load_member in L.
      destruct (store_attribute_free _ _ _ E fs0 fs1 L H ks x Hx)
        as [He|[[Hk Hks]|Hf]]; auto.
      left; right. split; [exact Hk|].
      rewrite Hks. unfold member_parts.
      symmetry. apply app_removelast_last. apply split_not_nil. }
    destruct (IH _ fs1 tree Hl H1 keys n Hn) as [[He|[Hk Hks]]|[Hst|Hf]]; auto.
    + right; left. exists m. repeat split; auto. now left.
    + right; left. destruct Hst as [m' [Hin Hm']]. exists m'. split; auto.
      now right.
Qed.

(** The root is the place of no member: the name of a member has at
    least one part. *)
Lemma root_not_stored (members : list member) : ~ stored_at members [].
Proof.
  intros [m [_ [_ Hm]]]. unfold member_parts in Hm.
  now apply (split_not_nil Py.SLASH (member_name m)).
Qed.

Lemma owner_is_no_child_set_child (part : string) (sub node : dict) :
  part <> "owner" ->
  owner_is_no_child node -> owner_is_no_child (dict_set part (VDict sub) node).
Proof.
  intros Hp H d. rewrite dict_get_set_other by congruence. apply H.
Qed.

(** Without a member that has a part named [owner], the key ["owner"]
    of a node holds a string or is absent. *)
Lemma load_tar_owner_is_no_child (members : list member) (tree : dict) :
  Forall (fun m => Forall (fun part => part <> "owner") (member_parts m))
         members ->
  load_tar members = Ok tree ->
  every_node owner_is_no_child tree.
Proof.
  intros Hm H. unfold load_tar in H.
  apply load_members_every_node
    with (Inv := owner_is_no_child) (Good := fun part => part <> "owner")
    in H; auto.
  - intros d. discriminate.
  - intros content. apply every_node_flat.
    + intros d. simpl. discriminate.
    + apply flat_file_literal.
  - apply every_node_flat.
    + intros d. simpl. discriminate.
    + apply flat_dir_literal.
  - intros part sub node Hp. now apply owner_is_no_child_set_child.
  - apply every_node_empty. intros d. discriminate.
Qed.

(** C3, as stated, fails on the code.  Loading the one file [a/f.txt]
    creates the directory [a] by [setdefault(part, {})]: the node is in
    the tree and has no ["owner"] key, and neither has the root. *)
Lemma implicit_parent_has_no_owner :
  exists tree node,
    load_tar [ {| member_name := "a/f.txt"; kind := IsFile "x" |} ] = Ok tree /\
    node_at ["a"] tree = Some node /\
    dict_get "owner" node = None /\
    dict_get "owner" tree = None /\
    owner_at ["a"; "f.txt"] tree = Some (VStr default_owner).
Proof. run_session. Qed.

(** A directory created as a missing parent, and the root, can have a
    key ["owner"]: with the members [a/owner] and [owner] both have one,
    and it holds the node of that member, not an identity. *)
Example implicit_parent_with_owner_child :
  exists tree node,
    load_tar [ {| member_name := "a/owner"; kind := IsFile "x" |};
               {| member_name := "owner"; kind := IsDir |} ] = Ok tree /\
    node_at ["a"] tree = Some node /\
    dict_get "owner" node = Some (file_node "x") /\
    dict_get "owner" tree = Some dir_node.
Proof. run_session. Qed.

(** C3, amended.  After loading any sequence of archive members, every
    node of the tree that has a string under ["owner"] has the default
    identity there; and the node that a file or directory member has just
    been stored as has it.  A node at whose place no file or directory
    member is stored, which is what a directory created as a missing
    parent is, has no attribute at all: it holds no string under any key,
    so no owner, and a key ["owner"] it has holds a child node; it has no
    key ["owner"] when no member has a part of that name.  The root is
    such a node. *)
Theorem load_tar_owners :
  (forall members tree,
      load_tar members = Ok tree -> every_node owner_is_default tree) /\
  (forall fs0 m fs1,
      load_member fs0 m = Ok fs1 ->
      kind m <> IsOther ->
      owner_at (Py.split Py.SLASH (member_name m)) fs1
        = Some (VStr default_owner)) /\
  (forall members tree keys node,
      load_tar members = Ok tree ->
      node_at keys tree = Some node ->
      ~ stored_at members keys ->
      attribute_free node /\
      (Forall (fun m => Forall (fun part => part <> "owner") (member_parts m))
              members ->
       dict_get "owner" node = None)) /\
  (forall members tree,
      load_tar members = Ok tree ->
      attribute_free tree /\ ~ stored_at members []).
Proof.
  assert (Himplicit : forall members tree keys node,
    load_tar members = Ok tree ->
    node_at keys tree = Some node ->
    ~ stored_at members keys ->
    attribute_free node).
  { intros members tree keys node H Hn Hst. unfold load_tar in H.
    destruct (load_members_attribute_free members (fun _ => False) [] tree H)
      with (keys := keys) (n := node) as [[]|[Hs|Hf]]; auto; [|contradiction].
    intros [|k0 ks] m Hm; simpl in Hm; [|discriminate].
    inversion Hm. right. apply attribute_free_empty. }
  split; [|split; [|split]].
  - intros members tree H. unfold load_tar in H.
    apply load_members_every_node
      with (Inv := owner_is_default) (Good := fun _ => True) in H; auto.
    + intros o Ho. discriminate.
    + intros content. apply every_node_flat.
      * intros o Ho. simpl in Ho. congruence.
      * intros part. rewrite !child_cons_str, child_nil.
        repeat (destruct (String.eqb _ part); [reflexivity|]). reflexivity.
    + apply every_node_flat.
      * intros o Ho. simpl in Ho. congruence.
      * intros part. rewrite !child_cons_str, child_nil.
        repeat (destruct (String.eqb _ part); [reflexivity|]). reflexivity.
    + intros part sub node _. apply owner_is_default_set_child.
    + rewrite Forall_forall. intros m _. rewrite Forall_forall. auto.
    + apply every_node_empty. intros o Ho. discriminate.
  - intros fs0 m fs1 H Hk. unfold load_member in H.
    apply store_sets_owner in H; [|exact Hk].
    rewrite <- app_removelast_last in H; [exact H|apply split_not_nil].
  - intros members tree keys node H Hn Hst.
    pose proof (Himplicit members tree keys node H Hn Hst) as Hf.
    split; [exact Hf|]. intros Hm.
    pose proof (load_tar_owner_is_no_child members tree Hm H keys node Hn) as Hc.
    destruct (dict_get "owner" node) as [[t|d]|] eqn:G; [| |reflexivity].
    + now apply Hf in G.
    + now apply Hc in G.
  - intros members tree H. split; [|apply root_not_stored].
    apply (Himplicit members tree [] tree H eq_refl), root_not_stored.
Qed.

(** The amended C3 on the archive [sample_members], whose parent [p/q]
    is no member, and after which the directory [p/s] is loaded. *)
Lemma load_tar_owners_witness :
  exists tree fs1 node,
    load_tar sample_members = Ok tree /\
    every_node owner_is_default tree /\
    load_member tree {| member_name := "p/s"; kind := IsDir |} = Ok fs1 /\
    owner_at (Py.split Py.SLASH
                (member_name {| member_name := "p/s"; kind := IsDir |})) fs1
      = Some (VStr default_owner) /\
    node_at ["p"; "q"] tree = Some node /\
    ~ stored_at sample_members ["p"; "q"] /\
    attribute_free node /\
    dict_get "owner" node = None /\
    attribute_free tree.
Proof.
  pose proof load_tar_owners as [Hall [Hone [Himp Hroot]]].
  destruct (load_tar sample_members) as [tree|e] eqn:L;
    [|vm_compute in L; discriminate].
  destruct (load_member tree {| member_name := "p/s"; kind := IsDir |})
    as [fs1|e] eqn:M;
    [|vm_compute in L; inversion L; subst; vm_compute in M; discriminate].
  destruct (node_at ["p"; "q"] tree) as [node|] eqn:N;
    [|vm_compute in L; inversion L; subst; vm_compute in N; discriminate].
  assert (Hst : ~ stored_at sample_members ["p"; "q"]).
  { intros [m [Hin [_ Hm]]]. simpl in Hin.
    destruct Hin as [<-|[<-|[<-|[]]]]; vm_compute in Hm; discriminate. }
  assert (Hparts : Forall (fun m => Forall (fun part => part <> "owner")
                                          (member_parts m)) sample_members).
  { repeat constructor; vm_compute; discriminate. }
  exists tree, fs1, node.
  split; [reflexivity|]. split; [exact (Hall _ _ L)|].
  split; [exact M|]. split; [apply (Hone _ _ _ M); discriminate|].
  split; [exact N|]. split; [exact Hst|].
  split; [exact (proj1 (Himp _ _ _ _ L N Hst))|].
  split; [exact (proj2 (Himp _ _ _ _ L N Hst) Hparts)|].
  exact (proj1 (Hroot _ _ L)).
Defined.

(** ** C4: where [traverse_path] stops *)

(** C4, as stated, fails on the code.  The archive holds the file [f]
    and the file [f/g]: [setdefault] returns the dictionary of [f], and
    [g] is stored in it.  [traverse_path] tests each part for being a
    dictionary, which a File is, so that [f\g] resolves: the traversal has
    gone through the File [f]. *)
Lemma traverse_path_descends_through_file :
  exists tree nf ng,
    load_tar [ {| member_name := "f"; kind := IsFile "x" |};
               {| member_name := "f/g"; kind := IsFile "y" |} ] = Ok tree /\
    traverse_path tree "f" = Some nf /\
    is_file nf /\
    traverse_path tree "f\g" = Some ng /\
    dict_get "content" ng = Some (VStr "y").
Proof. run_session. Qed.

(** C4, amended.  [traverse_path] follows, from the root, the child
    named by each part of the path that is not empty; it returns [None]
    as soon as a part names no child of the node reached, that is when
    the part is not a key of the node or the entry is not a dictionary.
    It has no test for Files: a part that follows a File gives [None]
    whenever the File has no child nodes. *)
Theorem traverse_path_stops (tree : dict) (path : string) :
  traverse_path tree path = node_at (used_parts (path_parts path)) tree /\
  forall pre part post node,
    path_parts path = (pre ++ part :: post)%list ->
    walk pre tree = Some node ->
    part <> EmptyString ->
    child part node = None \/ (is_file node /\ childless node) ->
    traverse_path tree path = None.
Proof.
  split; [apply walk_used_parts|].
  intros pre part post node Hparts Hpre Hpart Hstop.
  assert (Hchild : child part node = None).
  { destruct Hstop as [H|[_ H]]; [exact H|apply H]. }
  unfold traverse_path. rewrite Hparts, walk_app, Hpre.
  rewrite walk_child, Hchild; [reflexivity|].
  destruct part; [congruence|reflexivity].
Qed.

(** The amended C4 on the tree of [sample_members]: in [d\f\x] the part
    [x] follows the File [d/f]. *)
Lemma traverse_path_stops_witness :
  exists tree node,
    load_tar sample_members = Ok tree /\
    walk ["d"; "f"] tree = Some node /\
    is_file node /\
    traverse_path tree "d\f\x" = None.
Proof.
  destruct (load_tar sample_members) as [tree|e] eqn:L;
    [|vm_compute in L; discriminate].
  vm_compute in L. inversion L; subst tree. clear L.
  eexists. eexists. split; [reflexivity|].
  split; [vm_compute; reflexivity|].
  split; [vm_compute; reflexivity|].
  eapply (proj2 (traverse_path_stops _ "d\f\x") ["d"; "f"] "x" []).
  - vm_compute. reflexivity.
  - vm_compute. reflexivity.
  - discriminate.
  - left. vm_compute. reflexivity.
Defined.

(** ** C1: one log entry per command *)

Lemma dict_get_In (k : string) (v : value) (d : dict) :
  dict_get k d = Some v -> In (k, v) d.
Proof.
  induction d as [|[k' v'] d IH]; simpl; [discriminate|].
  destruct (String.eqb k' k) eqn:E.
  - apply String.eqb_eq in E. intros H. inversion H; subst. now left.
  - intros H. right. now apply IH.
Qed.

(** The boolean test on the whole tree gives the property of every
    node. *)
Lemma all_nodes_every_node (p : dict -> bool) (tree : dict) :
  all_nodes p (VDict tree) = true ->
  every_node (fun node => p node = true) tree.
Proof.
  intros H keys. revert tree H.
  induction keys as [|k keys IH]; intros tree H node Hn; simpl in Hn.
  - inversion Hn; subst. simpl in H. now apply andb_prop in H.
  - destruct (dict_get k tree) as [[t|d]|] eqn:G; try discriminate.
    apply (IH d); [|exact Hn].
    simpl in H. apply andb_prop in H. destruct H as [_ H].
    rewrite forallb_forall in H.
    apply (H (k, VDict d)). now apply dict_get_In.
Qed.

Lemma text_fileb_text_file (node : dict) :
  text_fileb node = true -> text_file node.
Proof.
  unfold text_fileb, text_file, is_file. intros H Hf. rewrite Hf in H.
  simpl in H. destruct (dict_get "content" node) as [[c|d]|]; try discriminate.
  now exists c.
Qed.

Lemma every_node_text_file (tree : dict) :
  all_nodes text_fileb (VDict tree) = true -> every_node text_file tree.
Proof.
  intros H keys node Hn. apply text_fileb_text_file.
  exact (all_nodes_every_node _ _ H keys node Hn).
Qed.

(** An invariant of nodes that assignments of strings under [key] keep,
    and that replacing a child keeps, holds of every node after
    [assign_at]. *)
Lemma every_node_assign_at (Inv : dict -> Prop) (key t : string) :
  (forall node, Inv node -> Inv (dict_set key (VStr t) node)) ->
  (forall part d sub node,
      Inv node -> dict_get part node = Some (VDict d) ->
      Inv (dict_set part (VDict sub) node)) ->
  forall parts tree,
    every_node Inv tree ->
    every_node Inv (assign_at parts key (VStr t) tree).
Proof.
  intros Hstr Hchild parts.
  induction parts as [|part parts IH]; intros tree H; simpl.
  - apply every_node_set_str; [|exact H].
    apply Hstr. now apply every_node_root.
  - destruct (is_empty part); [now apply IH|].
    destruct (dict_get part tree) as [[t'|d]|] eqn:G; try exact H.
    apply every_node_set_child; [| |exact H].
    + eapply Hchild; [|exact G]. now apply every_node_root.
    + apply IH. eapply every_node_child; eauto.
Qed.

Lemma text_file_set_child (part : string) (d sub node : dict) :
  text_file node -> dict_get part node = Some (VDict d) ->
  text_file (dict_set part (VDict sub) node).
Proof.
  unfold text_file, is_file. intros H G Hf.
  destruct (string_dec "type" part) as [<-|Ht].
  - rewrite dict_get_set_same in Hf. discriminate.
  - rewrite dict_get_set_other in Hf by assumption.
    destruct (H Hf) as [c Hc]. exists c.
    destruct (string_dec "content" part) as [<-|Hc'].
    + congruence.
    + now rewrite dict_get_set_other.
Qed.

Lemma text_file_set_owner (t : string) (node : dict) :
  text_file node -> text_file (dict_set "owner" (VStr t) node).
Proof.
  unfold text_file, is_file. intros H Hf.
  rewrite dict_get_set_other in Hf by discriminate.
  destruct (H Hf) as [c Hc]. exists c.
  now rewrite dict_get_set_other by discriminate.
Qed.

Lemma text_file_set_content (t : string) (node : dict) :
  text_file node -> text_file (dict_set "content" (VStr t) node).
Proof.
  intros _ _. exists t. apply dict_get_set_same.
Qed.

(** The Files of a loaded tree hold text when no member has a part named
    [content], the one name under which a member stored beneath a file
    would replace its text. *)
Lemma load_tar_text_files (members : list member) (tree : dict) :
  Forall (fun m => ~ In "content" (member_parts m)) members ->
  load_tar members = Ok tree ->
  every_node text_file tree.
Proof.
  intros Hm H. unfold load_tar in H.
  apply load_members_every_node
    with (Inv := text_file) (Good := fun part => part <> "content") in H; auto.
  - intros Hf. discriminate.
  - intros content. apply every_node_flat; [|apply flat_file_literal].
    intros _. now exists content.
  - apply every_node_flat; [|apply flat_dir_literal].
    intros Hf. discriminate.
  - unfold text_file, is_file. intros part sub node Hp Hn Hf.
    destruct (string_dec "type" part) as [<-|Ht].
    + rewrite dict_get_set_same in Hf. discriminate.
    + rewrite dict_get_set_other in Hf by assumption.
      destruct (Hn Hf) as [c Hc]. exists c.
      rewrite dict_get_set_other by congruence. exact Hc.
  - eapply Forall_impl; [|exact Hm].
    intros m Hc. rewrite Forall_forall. intros part Hin ->. contradiction.
  - apply every_node_empty. intros Hf. discriminate.
Qed.

(** *** The slash is not a separator of [traverse_path] *)

Lemma traverse_path_slash (tree : dict) :
  traverse_path tree "/" = child "/" tree.
Proof.
  unfold traverse_path. change (path_parts "/") with ["/"].
  rewrite walk_child by reflexivity. now destruct (child "/" tree).
Qed.

Lemma split_has_no_sep (sep : ascii) (s part : string) :
  In part (Py.split sep s) -> has_char sep part = false.
Proof.
  revert part. induction s as [|c s IH]; intros part; simpl.
  - intros [<-|[]]. reflexivity.
  - destruct (Ascii.eqb c sep) eqn:E.
    + intros [<-|H]; [reflexivity|now apply IH].
    + destruct (Py.split sep s) as [|w ws] eqn:S.
      * intros [<-|[]]. simpl. now rewrite E.
      * intros [<-|H].
        -- simpl. rewrite E. apply IH. now left.
        -- apply IH. now right.
Qed.

Lemma slash_free_keys_checked (d : dict) :
  forallb (fun kv => negb (has_char Py.SLASH (fst kv))) d = true ->
  slash_free_keys d.
Proof.
  intros H k v Hk. rewrite forallb_forall in H.
  apply dict_get_In in Hk. apply H in Hk. now apply negb_true_iff in Hk.
Qed.

Lemma load_tar_slash_free_keys (members : list member) (tree : dict) :
  load_tar members = Ok tree -> every_node slash_free_keys tree.
Proof.
  intros H. unfold load_tar in H.
  apply load_members_every_node
    with (Inv := slash_free_keys)
         (Good := fun part => has_char Py.SLASH part = false) in H; auto.
  - intros k v Hk. discriminate.
  - intros content. apply every_node_flat; [|apply flat_file_literal].
    now apply slash_free_keys_checked.
  - apply every_node_flat; [|apply flat_dir_literal].
    now apply slash_free_keys_checked.
  - intros part sub node Hp Hn k v Hk.
    destruct (string_dec k part) as [->|Hne]; [exact Hp|].
    rewrite dict_get_set_other in Hk by assumption. now apply (Hn k v).
  - rewrite Forall_forall. intros m _. rewrite Forall_forall.
    intros part. apply split_has_no_sep.
  - apply every_node_empty. intros k v Hk. discriminate.
Qed.

(** In a session that has just started the current path is [/], which
    no loaded tree resolves: the first [ls] reports an error, on every
    platform. *)
Lemma ls_in_new_session (P : Platform) (log answer : string)
    (members : list member) (s : ShellEmulator) :
  new_session log answer members = Ok s ->
  traverse_path (fs s) (current_path s) = None /\
  last_status (ls P s) = Some (error, "Not a directory").
Proof.
  unfold new_session. destruct (request_login answer) as [user out].
  destruct (load_tar members) as [tree|e] eqn:L; [|discriminate].
  simpl. intros H. inversion H; subst s. clear H. simpl.
  assert (T : traverse_path tree "/" = None).
  { rewrite traverse_path_slash. unfold child.
    destruct (dict_get "/" tree) as [[t|d]|] eqn:G; try reflexivity.
    apply load_tar_slash_free_keys in L.
    apply every_node_root in L. apply L in G. discriminate. }
  split; [exact T|]. unfold ls. simpl. rewrite T.
  unfold last_status. simpl. reflexivity.
Qed.

(** ** C9: the empty path and the separator alone *)

(** C9, on the code.  In every loaded tree [traverse_path] returns the
    root for the empty path and for the backslash alone, the character it
    splits on.  For the slash alone it returns [None]: the slash is the
    separator of the names in the archive, which [load_tar] splits on, and
    it is the path that [__init__] gives every session to start at; but
    [traverse_path] looks it up as the name of a child of the root, and no
    key of a loaded tree holds a slash.  The path a session starts at
    therefore resolves to nothing. *)
Theorem slash_alone_is_not_the_root (members : list member) (tree : dict) :
  load_tar members = Ok tree ->
  traverse_path tree EmptyString = Some tree /\
  traverse_path tree (Py.chr Py.BACKSLASH) = Some tree /\
  traverse_path tree (Py.chr Py.SLASH) = None /\
  forall log answer s,
    new_session log answer members = Ok s ->
    current_path s = Py.chr Py.SLASH /\
    traverse_path (fs s) (current_path s) = None.
Proof.
  intros L. destruct (traverse_path_root tree) as [He Hb].
  split; [exact He|]. split; [exact Hb|]. split.
  - change (Py.chr Py.SLASH) with "/". rewrite traverse_path_slash.
    unfold child.
    destruct (dict_get "/" tree) as [[t|d]|] eqn:G; try reflexivity.
    apply load_tar_slash_free_keys in L.
    apply every_node_root in L. apply L in G. discriminate.
  - intros log answer s H.
    split; [|exact (proj1 (ls_in_new_session windows log answer members s H))].
    unfold new_session in H. destruct (request_login answer) as [user out].
    destruct (load_tar members); [|discriminate].
    simpl in H. inversion H. reflexivity.
Qed.

(** The archive with the one file [f]: the slash alone, which is where
    the session starts, resolves to nothing in its tree. *)
Lemma slash_alone_is_not_the_root_witness :
  exists tree s,
    load_tar [ {| member_name := "f"; kind := IsFile "x" |} ] = Ok tree /\
    traverse_path tree EmptyString = Some tree /\
    traverse_path tree (Py.chr Py.BACKSLASH) = Some tree /\
    traverse_path tree (Py.chr Py.SLASH) = None /\
    new_session "log.xml" "user"
      [ {| member_name := "f"; kind := IsFile "x" |} ] = Ok s /\
    current_path s = Py.chr Py.SLASH /\
    traverse_path (fs s) (current_path s) = None.
Proof.
  destruct (load_tar [ {| member_name := "f"; kind := IsFile "x" |} ])
    as [tree|e] eqn:L; [|vm_compute in L; discriminate].
  destruct (new_session "log.xml" "user"
              [ {| member_name := "f"; kind := IsFile "x" |} ])
    as [s|e] eqn:N; [|vm_compute in N; discriminate].
  destruct (slash_alone_is_not_the_root _ tree L) as [He [Hb [Hs Hn]]].
  destruct (Hn _ _ s N) as [Hc Ht].
  exists tree, s. repeat split; assumption.
Defined.

(** A path that begins with a slash resolves in no loaded tree: its
    first part holds the slash. *)
Lemma rstrip_cons_kept (p : ascii -> bool) (c : ascii) (s : string) :
  p c = false -> exists r, Py.rstrip p (String c s) = String c r.
Proof.
  intros H. simpl. destruct (Py.rstrip p s) as [|c' r].
  - rewrite H. now exists EmptyString.
  - now exists (String c' r).
Qed.

Lemma traverse_path_leading_slash (tree : dict) (rest : string) :
  slash_free_keys tree ->
  traverse_path tree (String Py.SLASH rest) = None.
Proof.
  intros Hk. unfold traverse_path, path_parts, Py.strip.
  change (Py.lstrip (Ascii.eqb Py.BACKSLASH) (String Py.SLASH rest))
    with (String Py.SLASH rest).
  destruct (rstrip_cons_kept (Ascii.eqb Py.BACKSLASH) Py.SLASH rest eq_refl)
    as [r ->].
  change (Py.split Py.BACKSLASH (String Py.SLASH r))
    with (match Py.split Py.BACKSLASH r with
          | [] => [Py.chr Py.SLASH]
          | w :: ws => String Py.SLASH w :: ws
          end).
  assert (Hnone : forall w, dict_get (String Py.SLASH w) tree = None).
  { intros w. destruct (dict_get (String Py.SLASH w) tree) eqn:G;
      [|reflexivity].
    apply Hk in G. discriminate. }
  destruct (Py.split Py.BACKSLASH r) as [|w ws].
  - unfold Py.chr. simpl. now rewrite Hnone.
  - simpl. now rewrite Hnone.
Qed.

Lemma startswith_chr (a : ascii) (s : string) :
  Py.startswith (Py.chr a) s = true -> exists r, s = String a r.
Proof.
  unfold Py.startswith, Py.chr. destruct s as [|c s]; [discriminate|].
  cbn [String.prefix]. destruct (ascii_dec a c) as [<-|Hne]; [eauto|discriminate].
Qed.

Lemma posix_join_leading_slash (rest path : string) :
  exists r, PosixPath.join (String Py.SLASH rest) path = String Py.SLASH r.
Proof.
  unfold PosixPath.join.
  destruct (Py.startswith PosixPath.sep path) eqn:E.
  - apply startswith_chr in E. destruct E as [r ->]. eauto.
  - destruct (is_empty (String Py.SLASH rest)
              || Py.endswith PosixPath.sep (String Py.SLASH rest)); simpl; eauto.
Qed.

Lemma startswith_chr_cons (a : ascii) (s : string) :
  Py.startswith (Py.chr a) (String a s) = true.
Proof.
  unfold Py.startswith, Py.chr. cbn [String.prefix].
  destruct (ascii_dec a a) as [_|Hne]; [now destruct s|congruence].
Qed.

Lemma startswith_sep (rest : string) :
  Py.startswith PosixPath.sep (String Py.SLASH rest) = true.
Proof. apply startswith_chr_cons. Qed.

Lemma posix_normpath_leading_slash (rest : string) :
  exists r, PosixPath.normpath (String Py.SLASH rest) = String Py.SLASH r.
Proof.
  unfold PosixPath.normpath.
  change (is_empty (String Py.SLASH rest)) with false. cbv beta iota.
  rewrite startswith_sep.
  destruct (Py.startswith (PosixPath.sep ++ PosixPath.sep) (String Py.SLASH rest)
            && negb (Py.startswith
                       (PosixPath.sep ++ PosixPath.sep ++ PosixPath.sep)
                       (String Py.SLASH rest))); cbv zeta.
  - change (PosixPath.repeat_sep 2)
      with (String Py.SLASH (String Py.SLASH EmptyString)).
    cbn [String.append is_empty]. eauto.
  - change (PosixPath.repeat_sep 1) with (String Py.SLASH EmptyString).
    cbn [String.append is_empty]. eauto.
Qed.

(** With the POSIX path functions [cd] fails whenever the current path
    begins with a slash, as it does from the start. *)
Lemma posix_cd_fails (clock : nat -> string)
    (write : string -> list LogEntry -> option string)
    (s : ShellEmulator) (rest path : string) :
  slash_free_keys (fs s) ->
  current_path s = String Py.SLASH rest ->
  current_path (cd (posix clock write) [path] s) = current_path s /\
  last_status (cd (posix clock write) [path] s)
    = Some (error, "No such directory").
Proof.
  intros Hk Hc.
  assert (T : traverse_path (fs s) (cd_target (posix clock write) s path) = None).
  { unfold cd_target. simpl. rewrite Hc.
    destruct (posix_join_leading_slash rest path) as [r ->].
    destruct (posix_normpath_leading_slash r) as [r' ->].
    now apply traverse_path_leading_slash. }
  destruct (cd_unresolved _ s path T) as (H1 & _ & _ & H2). now split.
Qed.

Section LogCount.

Variable P : Platform.

Lemma fold_print_keeps (names : list string) (s : ShellEmulator) :
  let s' := fold_left (fun s' name => print name s') names s in
  log_actions s' = log_actions s /\ fs s' = fs s.
Proof.
  revert s. induction names as [|n names IH]; intros s; simpl; [now split|].
  apply (IH (print n s)).
Qed.

Lemma ls_logs_once (s : ShellEmulator) :
  logs_once s (ls P s) /\ fs (ls P s) = fs s.
Proof.
  unfold ls, logs_once.
  destruct (traverse_path (fs s) (current_path s)) as [node|]; simpl.
  - destruct (fold_print_keeps (dict_keys node) s) as [Hl Hf].
    rewrite Hl, Hf. eauto.
  - eauto.
Qed.

Lemma cd_logs_once (args : list string) (s : ShellEmulator) :
  logs_once s (cd P args s) /\ fs (cd P args s) = fs s.
Proof.
  unfold cd, logs_once.
  destruct args as [|path [|x args]]; simpl; eauto.
  destruct (traverse_path _ _); simpl; eauto.
Qed.

Lemma who_logs_once (s : ShellEmulator) :
  logs_once s (who P s) /\ fs (who P s) = fs s.
Proof. unfold who, logs_once. simpl. eauto. Qed.

Lemma chown_logs_once (args : list string) (s : ShellEmulator) :
  every_node text_file (fs s) ->
  logs_once s (chown P args s) /\ every_node text_file (fs (chown P args s)).
Proof.
  intros H. unfold chown, logs_once.
  destruct args as [|owner [|path [|x args]]]; simpl; eauto.
  destruct (traverse_path _ _) as [node|]; simpl; eauto.
  destruct (dict_mem "owner" node); simpl; eauto.
  split; [eauto|].
  apply every_node_assign_at; auto using text_file_set_owner.
  intros part d sub n. apply text_file_set_child.
Qed.

(** On a tree whose Files hold text, [uniq] returns. *)
Lemma uniq_logs_once (args : list string) (s : ShellEmulator) :
  every_node text_file (fs s) ->
  exists s', uniq P args s = Returned s' /\
             logs_once s s' /\ every_node text_file (fs s').
Proof.
  intros H. unfold uniq, logs_once.
  assert (Hfail : forall cmd st msg out,
    exists s', Returned (log P cmd st msg (print out s)) = Returned s' /\
      (exists e, log_actions s' = (log_actions s ++ [e])%list) /\
      every_node text_file (fs s')).
  { intros. eexists. split; [reflexivity|]. simpl. eauto. }
  destruct args as [|path [|x args]]; try apply Hfail.
  destruct (traverse_path (fs s) path) as [node|] eqn:T; try apply Hfail.
  destruct (dict_get "type" node) as [[ty|d]|] eqn:Ty; try apply Hfail.
  destruct (String.eqb ty "file") eqn:E; try apply Hfail.
  apply String.eqb_eq in E. subst ty.
  assert (Hn : text_file node).
  { unfold traverse_path in T. rewrite walk_used_parts in T. exact (H _ _ T). }
  destruct (Hn Ty) as [content Hc]. rewrite Hc.
  eexists. split; [reflexivity|]. simpl. split; [eauto|].
  apply every_node_assign_at; auto using text_file_set_content.
  intros part d sub n. apply text_file_set_child.
Qed.

Lemma save_log_keeps (s : ShellEmulator) :
  log_actions (save_log P s) = log_actions s /\ fs (save_log P s) = fs s.
Proof.
  unfold save_log. destruct (log_actions s) eqn:L; simpl; [now rewrite L|].
  destruct (tree_write P (log_path s) (l :: l0)); simpl; now rewrite L.
Qed.

(** A command other than [exit] returns with one entry more. *)
Lemma execute_command_logs_once (line : string) (s : ShellEmulator) :
  every_node text_file (fs s) ->
  dispatched line ->
  exists s', execute_command P line s = Returned s' /\
             logs_once s s' /\ every_node text_file (fs s').
Proof.
  intros H (cmd & args & Hw & Hne). unfold execute_command.
  unfold words in Hw. rewrite Hw.
  destruct (String.eqb cmd "ls").
  { destruct (ls_logs_once s) as [Hl Hf]. eexists. rewrite Hf. eauto. }
  destruct (String.eqb cmd "cd").
  { destruct (cd_logs_once args s) as [Hl Hf]. eexists. rewrite Hf. eauto. }
  destruct (String.eqb cmd "chown").
  { destruct (chown_logs_once args s H) as [Hl Hf]. eauto. }
  destruct (String.eqb cmd "who").
  { destruct (who_logs_once s) as [Hl Hf]. eexists. rewrite Hf. eauto. }
  destruct (String.eqb cmd "uniq").
  { apply uniq_logs_once, H. }
  destruct (String.eqb cmd "exit") eqn:E.
  { apply String.eqb_eq in E. contradiction. }
  eexists. split; [reflexivity|]. unfold logs_once. simpl. eauto.
Qed.

(** [exit] leaves the log as it is. *)
Lemma execute_command_exit (line : string) (args : list string)
    (s : ShellEmulator) :
  words line = "exit" :: args ->
  exists s', execute_command P line s = Exited s' /\
             log_actions s' = log_actions s.
Proof.
  intros Hw. unfold execute_command. unfold words in Hw. rewrite Hw. simpl.
  eexists. split; [reflexivity|]. simpl. apply save_log_keeps.
Qed.

Lemma run_loop_cons (line : string) (rest : list string) (s : ShellEmulator) :
  run_loop P (line :: rest) s =
  match execute_command P line (print (current_path s ++ "> ") s) with
  | Returned s' => run_loop P rest s'
  | o => o
  end.
Proof. reflexivity. Qed.

Lemma run_loop_logs (lines : list string) (s : ShellEmulator) :
  every_node text_file (fs s) ->
  Forall dispatched lines ->
  exists s', run_loop P (lines ++ ["exit"]) s = Exited s' /\
             length (log_actions s') = length (log_actions s) + length lines.
Proof.
  intros H Hall. revert s H.
  induction Hall as [|line lines Hline Hall IH]; intros s H.
  - change ([] ++ ["exit"])%list with ["exit"]. rewrite run_loop_cons.
    destruct (execute_command_exit "exit" [] (print (current_path s ++ "> ") s))
      as (s' & He & Hl); [reflexivity|].
    rewrite He. exists s'. split; [reflexivity|]. rewrite Hl. simpl. lia.
  - change ((line :: lines) ++ ["exit"])%list
      with (line :: (lines ++ ["exit"]))%list.
    rewrite run_loop_cons.
    destruct (execute_command_logs_once line (print (current_path s ++ "> ") s))
      as (s1 & He & [e Hl] & Hf); [exact H|exact Hline|].
    rewrite He.
    destruct (IH s1 Hf) as (s' & Hr & Hlen).
    exists s'. split; [exact Hr|]. rewrite Hlen, Hl.
    rewrite length_app. simpl. lia.
Qed.

End LogCount.

(** C1, as stated, fails on the code.  [exit] saves the log, prints and
    leaves the process: it appends no entry and does not return.  And a
    command can raise before it logs: with the file [f] and the file
    [f/content] in the archive, the ["content"] of [f] is a dictionary,
    and [uniq f] raises [AttributeError]. *)
Lemma exit_appends_no_entry :
  exists s0 s1 t0 t1,
    session_on sample_members = Some s0 /\
    execute_command windows "exit" s0 = Exited s1 /\
    log_actions s1 = [] /\
    printed s0 s1 = ["No actions to log."; "Session saved. Exiting..."] /\
    session_on [ {| member_name := "f"; kind := IsFile "x" |};
                 {| member_name := "f/content"; kind := IsFile "y" |} ]
      = Some t0 /\
    execute_command windows "uniq f" t0 = Raised AttributeError t1 /\
    log_actions t1 = [].
Proof. run_session. Qed.

(** C1, amended.  On a tree whose Files hold text: a line without a word
    (empty, or white space only) returns at once and changes nothing; a
    line whose first word is not [exit], a known verb or not, returns with
    exactly one entry appended to the log; [exit] leaves the process with
    the log as it was; and a session of [N] lines with a first word other
    than [exit], followed by [exit], ends with exactly [N] entries more in
    the log. *)
Theorem one_log_entry_per_command (P : Platform) (s : ShellEmulator) :
  every_node text_file (fs s) ->
  (forall line, words line = [] -> execute_command P line s = Returned s) /\
  (forall line, dispatched line ->
     exists s', execute_command P line s = Returned s' /\ logs_once s s') /\
  (forall line args, words line = "exit" :: args ->
     exists s', execute_command P line s = Exited s' /\
                log_actions s' = log_actions s) /\
  (forall lines, Forall dispatched lines ->
     exists s', run_loop P (lines ++ ["exit"]) s = Exited s' /\
                length (log_actions s') = length (log_actions s) + length lines).
Proof.
  intros H. repeat split.
  - intros line Hw. unfold execute_command. unfold words in Hw. now rewrite Hw.
  - intros line Hd.
    destruct (execute_command_logs_once P line s H Hd) as (s' & He & Hl & _).
    eauto.
  - intros line args. apply execute_command_exit.
  - intros lines. now apply run_loop_logs.
Qed.

(** The amended C1 on the session that starts on [sample_members]: the
    three commands [ls], [frobnicate] and [uniq d\f], then [exit]. *)
Lemma one_log_entry_per_command_witness :
  exists s0 s',
    session_on sample_members = Some s0 /\
    every_node text_file (fs s0) /\
    run_loop windows (["ls"; "frobnicate"; "uniq d\f"] ++ ["exit"]) s0
      = Exited s' /\
    length (log_actions s') = length (log_actions s0) + 3.
Proof.
  destruct (session_on sample_members) as [s0|] eqn:S;
    [|vm_compute in S; discriminate].
  assert (H : every_node text_file (fs s0)).
  { vm_compute in S. inversion S; subst s0.
    apply every_node_text_file. vm_compute. reflexivity. }
  destruct (one_log_entry_per_command windows s0 H) as (_ & _ & _ & Hrun).
  destruct (Hrun ["ls"; "frobnicate"; "uniq d\f"]) as (s' & Hr & Hlen).
  { repeat constructor.
    - exists "ls", []. split; [vm_compute; reflexivity|discriminate].
    - exists "frobnicate", []. split; [vm_compute; reflexivity|discriminate].
    - exists "uniq", ["d\f"]. split; [vm_compute; reflexivity|discriminate]. }
  exists s0, s'. split; [reflexivity|]. split; [exact H|].
  split; [exact Hr|exact Hlen].
Defined.

(** ** [uniq]: the lines that are kept *)

Section SortedSet.

Variable key : string -> nat.

Lemma insert_by_perm (x : string) (l : list string) :
  Permutation (Py.insert_by key x l) (x :: l).
Proof.
  induction l as [|y l IH]; simpl; [reflexivity|].
  destruct (key x <=? key y)%nat; [reflexivity|].
  rewrite IH. apply perm_swap.
Qed.

Lemma sorted_perm (l : list string) : Permutation (Py.sorted key l) l.
Proof.
  induction l as [|x l IH]; simpl; [reflexivity|].
  rewrite insert_by_perm. now apply perm_skip.
Qed.

Lemma insert_by_sorted (x : string) (l : list string) :
  StronglySorted (key_le key) l ->
  StronglySorted (key_le key) (Py.insert_by key x l).
Proof.
  induction 1 as [|y l Hl IH Hy]; simpl.
  - constructor; constructor.
  - destruct (key x <=? key y)%nat eqn:E.
    + apply Nat.leb_le in E. constructor; [now constructor|].
      constructor; [exact E|].
      eapply Forall_impl; [|exact Hy].
      unfold key_le. intros z Hz. lia.
    + apply Nat.leb_gt in E. constructor; [exact IH|].
      rewrite Forall_forall in *. intros z Hz.
      apply (Permutation_in _ (insert_by_perm x l)) in Hz.
      destruct Hz as [<-|Hz]; [unfold key_le; lia|now apply Hy].
Qed.

Lemma sorted_sorted (l : list string) :
  StronglySorted (key_le key) (Py.sorted key l).
Proof.
  induction l as [|x l IH]; simpl; [constructor|].
  now apply insert_by_sorted.
Qed.

(** A list sorted on its keys is the only one of its permutations that
    is strictly sorted. *)
Lemma sorted_unique (l1 l2 : list string) :
  Permutation l1 l2 ->
  StronglySorted (key_le key) l1 ->
  StronglySorted (key_lt key) l2 ->
  l1 = l2.
Proof.
  revert l2. induction l1 as [|h1 t1 IH]; intros l2 Hp H1 H2.
  - now apply Permutation_nil in Hp.
  - destruct l2 as [|h2 t2].
    + symmetry in Hp. now apply Permutation_nil in Hp.
    + inversion H1 as [|? ? Ht1 Hh1]; subst.
      inversion H2 as [|? ? Ht2 Hh2]; subst.
      rewrite Forall_forall in Hh1, Hh2.
      assert (h1 = h2) as ->.
      { assert (I2 : In h2 (h1 :: t1)).
        { apply (Permutation_in _ (Permutation_sym Hp)). now left. }
        assert (I1 : In h1 (h2 :: t2)).
        { apply (Permutation_in _ Hp). now left. }
        destruct I2 as [E|I2]; [exact E|].
        destruct I1 as [E|I1]; [now symmetry|].
        specialize (Hh1 _ I2). specialize (Hh2 _ I1).
        unfold key_le, key_lt in *. lia. }
      f_equal. apply IH; auto.
      now apply Permutation_cons_inv in Hp.
Qed.

End SortedSet.

Lemma first_occurrences_In (l : list string) (x : string) :
  In x (first_occurrences l) <-> In x l.
Proof.
  induction l as [|y l IH]; simpl; [tauto|].
  split.
  - intros [E|H]; [now left|].
    apply in_remove in H. right. now apply IH.
  - intros [E|H]; [now left|].
    destruct (string_dec y x) as [E|Hne]; [now left|].
    right. apply in_in_remove; [congruence|now apply IH].
Qed.

Lemma NoDup_remove_elt (x : string) (l : list string) :
  NoDup l -> NoDup (remove string_dec x l).
Proof.
  induction 1 as [|y l Hy Hl IH]; simpl; [constructor|].
  destruct (string_dec x y); [exact IH|].
  constructor; [|exact IH].
  intros H. apply in_remove in H. tauto.
Qed.

Lemma first_occurrences_NoDup (l : list string) : NoDup (first_occurrences l).
Proof.
  induction l as [|x l IH]; simpl; constructor.
  - apply remove_In.
  - now apply NoDup_remove_elt.
Qed.

Lemma first_occurrences_id (l : list string) :
  NoDup l -> first_occurrences l = l.
Proof.
  induction 1 as [|x l Hx Hl IH]; simpl; [reflexivity|].
  rewrite IH. now rewrite notin_remove.
Qed.

Lemma StronglySorted_remove (R : string -> string -> Prop) (x : string)
    (l : list string) :
  StronglySorted R l -> StronglySorted R (remove string_dec x l).
Proof.
  induction 1 as [|y l Hl IH Hy]; simpl; [constructor|].
  destruct (string_dec x y); [exact IH|].
  constructor; [exact IH|].
  rewrite Forall_forall in *. intros z Hz.
  apply in_remove in Hz. now apply Hy.
Qed.

Lemma StronglySorted_weaken (R1 R2 : string -> string -> Prop)
    (l : list string) :
  (forall a b, In a l -> In b l -> R1 a b -> R2 a b) ->
  StronglySorted R1 l -> StronglySorted R2 l.
Proof.
  intros H Hs. induction Hs as [|y l Hl IH Hy]; [constructor|].
  constructor.
  - apply IH. intros a b Ha Hb. apply H; now right.
  - rewrite Forall_forall in *. intros z Hz.
    apply H; [now left|now right|now apply Hy].
Qed.

Lemma index_head (x : string) (l : list string) : Py.index (x :: l) x = 0.
Proof. simpl. now rewrite String.eqb_refl. Qed.

Lemma index_tail (x y : string) (l : list string) :
  x <> y -> Py.index (x :: l) y = S (Py.index l y).
Proof.
  intros H. simpl. destruct (String.eqb x y) eqn:E; [|reflexivity].
  apply String.eqb_eq in E. contradiction.
Qed.

(** The first occurrences come in the order of their positions. *)
Lemma first_occurrences_sorted (l : list string) :
  StronglySorted (key_lt (Py.index l)) (first_occurrences l).
Proof.
  induction l as [|x l IH]; cbn [first_occurrences]; [constructor|].
  constructor.
  - apply StronglySorted_weaken with (R1 := key_lt (Py.index l)).
    + intros a b Ha Hb. apply in_remove in Ha, Hb.
      unfold key_lt. rewrite !index_tail by (intros E; symmetry in E; tauto).
      lia.
    + now apply StronglySorted_remove.
  - rewrite Forall_forall. intros z Hz. apply in_remove in Hz.
    unfold key_lt. rewrite index_head, index_tail; [lia|].
    intros E. symmetry in E. tauto.
Qed.

(** [sorted(set(lines), key=lines.index)] is the list of the first
    occurrences, in whatever order the set is enumerated. *)
Lemma sorted_any_set (lines elems : list string) :
  NoDup elems ->
  (forall x, In x elems <-> In x lines) ->
  Py.sorted (Py.index lines) elems = first_occurrences lines.
Proof.
  intros Hnd Hin.
  apply sorted_unique with (key := Py.index lines).
  - rewrite sorted_perm.
    apply NoDup_Permutation; [exact Hnd|apply first_occurrences_NoDup|].
    intros x. rewrite first_occurrences_In. apply Hin.
  - apply sorted_sorted.
  - apply first_occurrences_sorted.
Qed.

Lemma sorted_set (lines : list string) :
  Py.sorted (Py.index lines) (Py.set lines) = first_occurrences lines.
Proof.
  apply sorted_any_set.
  - apply NoDup_nodup.
  - intros x. apply nodup_In.
Qed.

Lemma unique_lines_first_occurrences (content : string) :
  unique_lines content =
  Py.join nl (first_occurrences (Py.splitlines content)).
Proof. unfold unique_lines. now rewrite sorted_set. Qed.

(** ** [uniq]: splitting and joining *)

Lemma string_ind2 (Q : string -> Prop) :
  Q EmptyString ->
  (forall c, Q (String c EmptyString)) ->
  (forall c c' s, Q s -> Q (String c' s) -> Q (String c (String c' s))) ->
  forall s, Q s.
Proof.
  intros H0 H1 H2 s.
  assert (H : Q s /\ forall c, Q (String c s)).
  { induction s as [|a s [IHs IHc]]; [now split|].
    split; [apply IHc|]. intros c. now apply H2. }
  apply H.
Qed.

Lemma length_append (a b : string) :
  String.length (a ++ b) = String.length a + String.length b.
Proof. induction a as [|c a IH]; simpl; [reflexivity|now rewrite IH]. Qed.

Lemma append_assoc (a b c : string) : (a ++ b) ++ c = a ++ (b ++ c).
Proof. induction a as [|x a IH]; simpl; [reflexivity|now rewrite IH]. Qed.

Lemma last_char_cons (c c' : ascii) (s : string) :
  Py.last_char (String c (String c' s)) = Py.last_char (String c' s).
Proof. reflexivity. Qed.

Lemma last_char_append (a b : string) :
  b <> EmptyString -> Py.last_char (a ++ b) = Py.last_char b.
Proof.
  intros Hb. induction a as [|c a IH]; [reflexivity|].
  simpl. rewrite <- IH.
  destruct (a ++ b) eqn:E; [|reflexivity].
  destruct a; simpl in E; [congruence|discriminate].
Qed.

Lemma endswith_chr (a : ascii) (s : string) :
  Py.endswith (Py.chr a) s = true <-> Py.last_char s = Some a.
Proof.
  induction s as [|c s IH].
  - simpl. split; discriminate.
  - destruct s as [|c' s].
    + simpl. rewrite orb_false_r.
      destruct (Ascii.eqb_spec a c) as [->|Hne]; split; intros H;
        try reflexivity; try discriminate.
      inversion H. congruence.
    + rewrite last_char_cons, <- IH.
      change (Py.endswith (Py.chr a) (String c (String c' s)))
        with (String.eqb (Py.chr a) (String c (String c' s))
              || Py.endswith (Py.chr a) (String c' s)).
      replace (String.eqb (Py.chr a) (String c (String c' s))) with false;
        [reflexivity|].
      unfold Py.chr. simpl. now destruct (Ascii.eqb a c).
Qed.

Lemma splitlines_cons (c : ascii) (s' : string) :
  Py.splitlines (String c s') =
  if Py.islinebreak c then
    match s' with
    | String c' s'' =>
        if Ascii.eqb c Py.CR && Ascii.eqb c' Py.LF
        then EmptyString :: Py.splitlines s''
        else EmptyString :: Py.splitlines s'
    | EmptyString => [EmptyString]
    end
  else match Py.splitlines s' with
       | [] => [Py.chr c]
       | l :: ls => String c l :: ls
       end.
Proof. reflexivity. Qed.

Lemma splitlines_not_nil (c : ascii) (s : string) :
  Py.splitlines (String c s) <> [].
Proof.
  rewrite splitlines_cons. destruct (Py.islinebreak c).
  - destruct s as [|c' s]; [discriminate|].
    destruct (Ascii.eqb c Py.CR && Ascii.eqb c' Py.LF); discriminate.
  - destruct (Py.splitlines s); discriminate.
Qed.

Lemma splitlines_break_free (s : string) :
  Forall (fun l => break_free l = true) (Py.splitlines s).
Proof.
  induction s as [|c|c c' s IHs IHs'] using string_ind2.
  - constructor.
  - rewrite splitlines_cons. destruct (Py.islinebreak c) eqn:B; simpl.
    + repeat constructor.
    + repeat constructor. simpl. now rewrite B.
  - rewrite splitlines_cons. destruct (Py.islinebreak c) eqn:B.
    + destruct (Ascii.eqb c Py.CR && Ascii.eqb c' Py.LF);
        constructor; auto.
    + destruct (Py.splitlines (String c' s)) as [|l ls].
      * repeat constructor. simpl. now rewrite B.
      * inversion IHs'; subst. constructor; [|assumption].
        simpl. rewrite B. assumption.
Qed.

(** The characters [splitlines] keeps: at most those of the text, and
    one fewer when the text ends with a line boundary. *)
Lemma weight_splitlines (s : string) :
  weight (Py.splitlines s) <= S (String.length s) /\
  (last_is_break s = true -> weight (Py.splitlines s) <= String.length s).
Proof.
  induction s as [|c|c c' s [IHs _] [IHs' IHb]] using string_ind2.
  - simpl. split; [lia|discriminate].
  - rewrite splitlines_cons. unfold last_is_break. simpl.
    destruct (Py.islinebreak c); simpl; split; try lia; discriminate.
  - rewrite splitlines_cons.
    unfold last_is_break in *. rewrite last_char_cons.
    destruct (Py.islinebreak c).
    + destruct (Ascii.eqb c Py.CR && Ascii.eqb c' Py.LF);
        cbn [weight String.length] in *; split; try lia.
      intros H. specialize (IHb H). lia.
    + destruct (Py.splitlines (String c' s)) as [|l ls] eqn:E;
        [now apply splitlines_not_nil in E|].
      cbn [weight String.length] in *. split; [lia|].
      intros H. specialize (IHb H). lia.
Qed.

Lemma join_cons (x y : string) (l : list string) :
  Py.join nl (x :: y :: l) = x ++ nl ++ Py.join nl (y :: l).
Proof. reflexivity. Qed.

Lemma join_single (x : string) : Py.join nl [x] = x.
Proof. reflexivity. Qed.

Lemma join_length (l : list string) :
  String.length (Py.join nl l) = pred (weight l).
Proof.
  induction l as [|x l IH]; [reflexivity|].
  destruct l as [|y l].
  - rewrite join_single. simpl. lia.
  - rewrite join_cons, !length_append, IH.
    cbn [weight String.length nl Py.chr]. lia.
Qed.

Lemma weight_remove (x : string) (l : list string) :
  weight (remove string_dec x l) <= weight l.
Proof.
  induction l as [|y l IH]; simpl; [lia|].
  destruct (string_dec x y); simpl; lia.
Qed.

Lemma weight_first_occurrences (l : list string) :
  weight (first_occurrences l) <= weight l.
Proof.
  induction l as [|x l IH]; simpl; [lia|].
  pose proof (weight_remove x (first_occurrences l)). lia.
Qed.

(** A text that ends with a line boundary gets shorter. *)
Lemma unique_lines_shorter (content : string) :
  last_is_break content = true ->
  String.length (unique_lines content) < String.length content.
Proof.
  intros H. rewrite unique_lines_first_occurrences, join_length.
  pose proof (weight_first_occurrences (Py.splitlines content)) as Hw.
  destruct (weight_splitlines content) as [_ Hs]. specialize (Hs H).
  destruct content as [|c s]; [discriminate|].
  destruct (Py.splitlines (String c s)) as [|l ls] eqn:E;
    [now apply splitlines_not_nil in E|].
  cbn [first_occurrences weight String.length] in *. lia.
Qed.

Lemma splitlines_line (l rest : string) :
  break_free l = true ->
  Py.splitlines (l ++ nl ++ rest) = l :: Py.splitlines rest.
Proof.
  intros H. induction l as [|c l IH].
  - change (EmptyString ++ nl ++ rest) with (String Py.LF rest).
    rewrite splitlines_cons. destruct rest; reflexivity.
  - simpl in H. apply andb_prop in H. destruct H as [Hc Hl].
    apply negb_true_iff in Hc.
    change (String c l ++ nl ++ rest) with (String c (l ++ nl ++ rest)).
    rewrite splitlines_cons, Hc, IH by assumption. reflexivity.
Qed.

Lemma splitlines_single (l : string) :
  break_free l = true -> l <> EmptyString -> Py.splitlines l = [l].
Proof.
  induction l as [|c l IH]; intros H Hne; [congruence|].
  simpl in H. apply andb_prop in H. destruct H as [Hc Hl].
  apply negb_true_iff in Hc. rewrite splitlines_cons, Hc.
  destruct l as [|c' l]; [reflexivity|].
  rewrite IH; [reflexivity|assumption|discriminate].
Qed.

Lemma splitlines_join (l : list string) :
  Forall (fun x => break_free x = true) l ->
  Py.splitlines (Py.join nl l) = drop_final_empty l.
Proof.
  induction 1 as [|x l Hx Hl IH]; [reflexivity|].
  destruct l as [|y l].
  - rewrite join_single. simpl.
    destruct x as [|c x]; [reflexivity|].
    now apply splitlines_single.
  - rewrite join_cons, splitlines_line, IH by assumption. reflexivity.
Qed.

Lemma last_char_join (x y : string) (l : list string) :
  Py.last_char (Py.join nl (x :: y :: l)) =
  match Py.join nl (y :: l) with
  | EmptyString => Some Py.LF
  | j => Py.last_char j
  end.
Proof.
  rewrite join_cons.
  rewrite last_char_append by (destruct (Py.join nl (y :: l)); discriminate).
  destruct (Py.join nl (y :: l)); reflexivity.
Qed.

(** A join that does not end with a line feed is split into the lines
    it was made of, the one line that is empty apart. *)
Lemma drop_final_empty_id (l : list string) :
  Py.last_char (Py.join nl l) <> Some Py.LF ->
  drop_final_empty l = l \/ l = [EmptyString].
Proof.
  induction l as [|x l IH]; intros H; [now left|].
  destruct l as [|y l].
  - destruct x; [now right|now left].
  - left. rewrite last_char_join in H.
    destruct (Py.join nl (y :: l)) eqn:J; [congruence|].
    destruct (IH H) as [E|E].
    + cbn [drop_final_empty]. cbn [drop_final_empty] in E. now rewrite E.
    + rewrite E in J. discriminate.
Qed.

Lemma unique_lines_empty : unique_lines EmptyString = EmptyString.
Proof. reflexivity. Qed.

(** The text that [uniq] leaves is left as it is by a second [uniq] when
    it does not end with a line feed. *)
Lemma unique_lines_fixed (l : list string) :
  Forall (fun x => break_free x = true) l ->
  NoDup l ->
  Py.last_char (Py.join nl l) <> Some Py.LF ->
  unique_lines (Py.join nl l) = Py.join nl l.
Proof.
  intros Hbf Hnd Hlast.
  destruct (drop_final_empty_id l Hlast) as [E| ->]; [|reflexivity].
  rewrite unique_lines_first_occurrences, splitlines_join, E by assumption.
  now rewrite first_occurrences_id.
Qed.

Lemma first_occurrences_break_free (l : list string) :
  Forall (fun x => break_free x = true) l ->
  Forall (fun x => break_free x = true) (first_occurrences l).
Proof.
  rewrite !Forall_forall. intros H x Hx.
  apply H. now apply first_occurrences_In.
Qed.

(** A second [uniq] changes the text exactly when the first one has left
    a line feed at its end. *)
Lemma unique_lines_twice (content : string) :
  unique_lines (unique_lines content) = unique_lines content <->
  Py.endswith nl (unique_lines content) = false.
Proof.
  split.
  - intros H. destruct (Py.endswith nl (unique_lines content)) eqn:E;
      [|reflexivity].
    apply endswith_chr in E.
    assert (B : last_is_break (unique_lines content) = true).
    { unfold last_is_break. now rewrite E. }
    apply unique_lines_shorter in B. rewrite H in B. lia.
  - intros H. rewrite (unique_lines_first_occurrences content) in *.
    apply unique_lines_fixed.
    + apply first_occurrences_break_free, splitlines_break_free.
    + apply first_occurrences_NoDup.
    + intros E. apply endswith_chr in E. unfold nl in *. congruence.
Qed.

Lemma break_free_last_char (x : string) (c : ascii) :
  break_free x = true -> Py.last_char x = Some c -> Py.islinebreak c = false.
Proof.
  induction x as [|a x IH]; [discriminate|].
  intros H L. simpl in H. apply andb_prop in H. destruct H as [Ha Hx].
  destruct x as [|b x].
  - simpl in L. inversion L; subst. now apply negb_true_iff.
  - rewrite last_char_cons in L. now apply IH.
Qed.

(** Lines whose last one is not empty are joined into a text that does
    not end with a line feed. *)
Lemma join_last_char (l : list string) :
  Forall (fun x => break_free x = true) l ->
  l = [] \/ last l EmptyString <> EmptyString ->
  Py.last_char (Py.join nl l) <> Some Py.LF.
Proof.
  induction 1 as [|x l Hx Hl IH]; intros Hlast; [discriminate|].
  destruct l as [|y l].
  - rewrite join_single. intros E.
    apply (break_free_last_char _ _ Hx) in E. discriminate.
  - rewrite last_char_join.
    destruct Hlast as [Hnil|Hlast]; [discriminate|].
    change (last (x :: y :: l) EmptyString) with (last (y :: l) EmptyString)
      in Hlast.
    destruct (Py.join nl (y :: l)) eqn:J.
    + exfalso. destruct l as [|z l].
      * rewrite join_single in J. subst y. now apply Hlast.
      * rewrite join_cons in J. destruct y; discriminate.
    + apply IH. now right.
Qed.

Lemma drop_final_empty_cons (x y : string) (l : list string) :
  drop_final_empty (x :: y :: l) = x :: drop_final_empty (y :: l).
Proof. reflexivity. Qed.

Lemma drop_final_empty_nil (l : list string) :
  drop_final_empty l = [] -> l = [] \/ l = [EmptyString].
Proof.
  destruct l as [|x [|y l]]; simpl; intros H.
  - now left.
  - destruct x; [now right|discriminate].
  - discriminate.
Qed.

Lemma drop_final_empty_last (l : list string) :
  NoDup l ->
  drop_final_empty l = [] \/
  last (drop_final_empty l) EmptyString <> EmptyString.
Proof.
  induction 1 as [|x l Hx Hl IH]; [now left|].
  destruct l as [|y l].
  - simpl. destruct x; [now left|right; discriminate].
  - right. rewrite drop_final_empty_cons.
    destruct (drop_final_empty (y :: l)) as [|z d] eqn:D.
    + apply drop_final_empty_nil in D. destruct D as [D|D]; [discriminate|].
      inversion D; subst. simpl. intros ->. apply Hx. now left.
    + destruct IH as [IH|IH]; [discriminate|]. exact IH.
Qed.

Lemma drop_final_empty_sub (l : list string) (x : string) :
  In x (drop_final_empty l) -> In x l.
Proof.
  induction l as [|y l IH]; [tauto|].
  destruct l as [|z l].
  - simpl. destruct y; simpl; tauto.
  - rewrite drop_final_empty_cons.
    intros [E|H]; [now left|right; now apply IH].
Qed.

Lemma drop_final_empty_NoDup (l : list string) :
  NoDup l -> NoDup (drop_final_empty l).
Proof.
  induction 1 as [|x l Hx Hl IH]; [constructor|].
  destruct l as [|y l].
  - simpl. destruct x; repeat constructor. tauto.
  - rewrite drop_final_empty_cons. constructor; [|exact IH].
    intros H. apply Hx. now apply drop_final_empty_sub.
Qed.

(** After [uniq] has been applied twice, the text does not end with a
    line feed. *)
Lemma unique_lines_twice_last (content : string) :
  Py.endswith nl (unique_lines (unique_lines content)) = false.
Proof.
  destruct (Py.endswith nl (unique_lines (unique_lines content))) eqn:E;
    [exfalso|reflexivity].
  apply endswith_chr in E. revert E.
  rewrite (unique_lines_first_occurrences content).
  set (l := first_occurrences (Py.splitlines content)).
  assert (Hbf : Forall (fun x => break_free x = true) l)
    by apply first_occurrences_break_free, splitlines_break_free.
  assert (Hnd : NoDup l) by apply first_occurrences_NoDup.
  rewrite unique_lines_first_occurrences, splitlines_join by assumption.
  rewrite first_occurrences_id by now apply drop_final_empty_NoDup.
  apply join_last_char.
  - rewrite Forall_forall in *. intros x Hx.
    apply Hbf. now apply drop_final_empty_sub.
  - destruct (drop_final_empty_last l Hnd); [now left|now right].
Qed.

Lemma unique_lines_thrice (content : string) :
  unique_lines (unique_lines (unique_lines content))
  = unique_lines (unique_lines content).
Proof. apply unique_lines_twice, unique_lines_twice_last. Qed.

(** ** C6 and C10: [uniq] on a File *)

(** On a File with a text, [uniq] returns: it has replaced the text by
    its [unique_lines], printed them and logged a success. *)
Lemma uniq_step (P : Platform) (s : ShellEmulator) (path content : string) :
  file_content (fs s) path = Some content ->
  exists s',
    uniq P [path] s = Returned s' /\
    file_content (fs s') path = Some (unique_lines content) /\
    printed s s' = [unique_lines content] /\
    last_status s' = Some (success, EmptyString) /\
    current_path s' = current_path s.
Proof.
  unfold file_content, uniq. intros H.
  destruct (traverse_path (fs s) path) as [node|] eqn:T; [|discriminate].
  destruct (dict_get "type" node) as [[ty|d]|] eqn:Ty; try discriminate.
  destruct (dict_get "content" node) as [[c|d]|] eqn:C; try discriminate.
  destruct (String.eqb ty "file") eqn:E; [|discriminate].
  inversion H; subst c. clear H.
  eexists. split; [reflexivity|].
  unfold printed, last_status. simpl.
  unfold traverse_path in *. rewrite (walk_assign_at _ _ _ _ _ T).
  rewrite dict_get_set_other by discriminate.
  rewrite Ty, E, dict_get_set_same.
  rewrite skipn_app, skipn_all, Nat.sub_diag, rev_app_distr. simpl.
  repeat split.
Qed.

(** C6, as stated, fails on the code.  The file [f] holds the line [a]
    and an empty line.  The first [uniq f] joins the two lines into the
    text [a] with a line feed; the second splits that text into the one
    line [a] and leaves the text [a]. *)
Lemma uniq_twice_differs :
  exists s0 s1 s2,
    session_on [ {| member_name := "f"; kind := IsFile ("a" ++ nl ++ nl) |} ]
      = Some s0 /\
    execute_command windows "uniq f" s0 = Returned s1 /\
    execute_command windows "uniq f" s1 = Returned s2 /\
    file_content (fs s1) "f" = Some ("a" ++ nl) /\
    file_content (fs s2) "f" = Some "a" /\
    last_status s1 = Some (success, EmptyString) /\
    last_status s2 = Some (success, EmptyString).
Proof. run_session. Qed.

(** C6, amended.  For every File with a text, [uniq] applied twice
    leaves the same content as [uniq] applied once exactly when the
    content left by the first one does not end with a line feed; and a
    third [uniq] always leaves what the second has left. *)
Theorem uniq_twice (P : Platform) (s : ShellEmulator) (path content : string) :
  file_content (fs s) path = Some content ->
  exists s1 s2 s3,
    uniq P [path] s = Returned s1 /\
    uniq P [path] s1 = Returned s2 /\
    uniq P [path] s2 = Returned s3 /\
    file_content (fs s1) path = Some (unique_lines content) /\
    (file_content (fs s2) path = file_content (fs s1) path <->
     Py.endswith nl (unique_lines content) = false) /\
    file_content (fs s3) path = file_content (fs s2) path.
Proof.
  intros H.
  destruct (uniq_step P s path content H) as (s1 & U1 & C1 & _).
  destruct (uniq_step P s1 path _ C1) as (s2 & U2 & C2 & _).
  destruct (uniq_step P s2 path _ C2) as (s3 & U3 & C3 & _).
  exists s1, s2, s3. repeat split; try assumption.
  - rewrite C1, C2. intros E. apply unique_lines_twice. congruence.
  - intros E. rewrite C1, C2. f_equal. now apply unique_lines_twice.
  - rewrite C3, C2. f_equal. apply unique_lines_thrice.
Qed.

(** The amended C6 on the file [d/f] of [sample_members]. *)
Lemma uniq_twice_witness :
  exists s0 s1 s2 s3,
    session_on sample_members = Some s0 /\
    file_content (fs s0) "d\f" = Some "x" /\
    uniq windows ["d\f"] s0 = Returned s1 /\
    uniq windows ["d\f"] s1 = Returned s2 /\
    uniq windows ["d\f"] s2 = Returned s3 /\
    file_content (fs s2) "d\f" = file_content (fs s1) "d\f" /\
    file_content (fs s3) "d\f" = file_content (fs s2) "d\f".
Proof.
  destruct (session_on sample_members) as [s0|] eqn:S;
    [|vm_compute in S; discriminate].
  assert (H : file_content (fs s0) "d\f" = Some "x").
  { vm_compute in S. inversion S; subst s0. vm_compute. reflexivity. }
  destruct (uniq_twice windows s0 "d\f" "x" H)
    as (s1 & s2 & s3 & U1 & U2 & U3 & C1 & [_ C2] & C3).
  exists s0, s1, s2, s3. repeat split; try assumption.
  apply C2. vm_compute. reflexivity.
Defined.

Lemma only_lf_join (s : string) :
  only_lf s = true ->
  Py.last_char s = Some Py.LF ->
  s = Py.join nl (Py.splitlines s) ++ nl.
Proof.
  induction s as [|c s IH]; [discriminate|].
  intros H L. simpl in H. apply andb_prop in H. destruct H as [Hc Hs].
  rewrite splitlines_cons.
  destruct (Py.islinebreak c) eqn:B.
  - simpl in Hc. apply Ascii.eqb_eq in Hc. subst c.
    destruct s as [|c' s]; [reflexivity|].
    rewrite last_char_cons in L.
    change (Ascii.eqb Py.LF Py.CR && Ascii.eqb c' Py.LF) with false.
    cbv iota.
    destruct (Py.splitlines (String c' s)) as [|l ls] eqn:E;
      [now apply splitlines_not_nil in E|].
    rewrite join_cons. rewrite (IH Hs L) at 1. reflexivity.
  - destruct s as [|c' s].
    + simpl in L. inversion L; subst c. discriminate.
    + rewrite last_char_cons in L.
      destruct (Py.splitlines (String c' s)) as [|l ls] eqn:E;
        [now apply splitlines_not_nil in E|].
      rewrite (IH Hs L) at 1.
      destruct ls; reflexivity.
Qed.

(** C10.  For every File whose text ends with a line feed and has no
    line twice, [uniq] succeeds and stores the join of the lines, which
    is not the text it found: it is shorter, and when line feeds are the
    only line boundaries of the text it is the text without its last line
    feed. *)
Theorem uniq_rewrites_without_duplicates (P : Platform) (s : ShellEmulator)
    (path content : string) :
  file_content (fs s) path = Some content ->
  NoDup (Py.splitlines content) ->
  Py.endswith nl content = true ->
  exists s',
    uniq P [path] s = Returned s' /\
    last_status s' = Some (success, EmptyString) /\
    file_content (fs s') path = Some (Py.join nl (Py.splitlines content)) /\
    Py.join nl (Py.splitlines content) <> content /\
    String.length (Py.join nl (Py.splitlines content)) < String.length content /\
    (only_lf content = true ->
     content = Py.join nl (Py.splitlines content) ++ nl).
Proof.
  intros H Hnd Hend.
  destruct (uniq_step P s path content H) as (s' & U & C & _ & L & _).
  apply endswith_chr in Hend.
  assert (B : last_is_break content = true).
  { unfold last_is_break. now rewrite Hend. }
  pose proof (unique_lines_shorter content B) as Hlen.
  rewrite unique_lines_first_occurrences, first_occurrences_id in C, Hlen
    by assumption.
  exists s'. repeat split; try assumption.
  - intros E. rewrite E in Hlen. lia.
  - intros Hlf. now apply only_lf_join.
Qed.

(** C10 on the file [g] with the two lines [x] and [y], each ended by a
    line feed. *)
Lemma uniq_rewrites_without_duplicates_witness :
  exists s0 s1,
    session_on [ {| member_name := "g";
                    kind := IsFile ("x" ++ nl ++ "y" ++ nl) |} ] = Some s0 /\
    uniq windows ["g"] s0 = Returned s1 /\
    file_content (fs s1) "g" = Some ("x" ++ nl ++ "y") /\
    "x" ++ nl ++ "y" <> "x" ++ nl ++ "y" ++ nl.
Proof.
  destruct (session_on [ {| member_name := "g";
                            kind := IsFile ("x" ++ nl ++ "y" ++ nl) |} ])
    as [s0|] eqn:S; [|vm_compute in S; discriminate].
  assert (H : file_content (fs s0) "g" = Some ("x" ++ nl ++ "y" ++ nl)).
  { vm_compute in S. inversion S; subst s0. vm_compute. reflexivity. }
  destruct (uniq_rewrites_without_duplicates windows s0 "g" _ H)
    as (s1 & U & _ & C & Hne & _).
  - vm_compute. repeat constructor; simpl; intuition discriminate.
  - vm_compute. reflexivity.
  - exists s0, s1. repeat split; assumption.
Defined.

(* ================================================================= *)
(** * Further properties of the code *)

(** ** The first [ls] and the POSIX path functions *)

(** X1. A session that has just started on any archive has the current
    path [/], which [traverse_path] resolves in no loaded tree: the first
    [ls] prints and logs "Not a directory", on every platform. *)
Theorem first_ls_reports_not_a_directory (P : Platform) (log answer : string)
    (members : list member) (s : ShellEmulator) :
  new_session log answer members = Ok s ->
  current_path s = "/" /\
  traverse_path (fs s) (current_path s) = None /\
  printed s (ls P s) = ["Not a directory"] /\
  last_status (ls P s) = Some (error, "Not a directory") /\
  fs (ls P s) = fs s.
Proof.
  intros H. destruct (ls_in_new_session P log answer members s H) as [T L].
  assert (C : current_path s = "/").
  { unfold new_session in H. destruct (request_login answer) as [user out].
    destruct (load_tar members); [|discriminate].
    simpl in H. now inversion H. }
  repeat split; try assumption.
  - unfold ls. rewrite T. unfold printed. simpl.
    now rewrite skipn_app, skipn_all, Nat.sub_diag.
  - unfold ls. now rewrite T.
Qed.

Lemma first_ls_reports_not_a_directory_witness :
  exists s,
    new_session "log.xml" "alice" sample_members = Ok s /\
    last_status (ls windows s) = Some (error, "Not a directory").
Proof.
  destruct (new_session "log.xml" "alice" sample_members) as [s|e] eqn:N;
    [|vm_compute in N; discriminate].
  exists s. split; [reflexivity|].
  apply (first_ls_reports_not_a_directory windows "log.xml" "alice"
           sample_members s N).
Defined.

Lemma slash_free_keys_set (key : string) (v : value) (node : dict) :
  has_char Py.SLASH key = false ->
  slash_free_keys node -> slash_free_keys (dict_set key v node).
Proof.
  intros Hkey H k w Hk. destruct (string_dec k key) as [->|Hne]; [exact Hkey|].
  rewrite dict_get_set_other in Hk by assumption. now apply (H k w).
Qed.

Lemma slash_free_keys_assign_at (parts : list string) (key : string)
    (v : value) (tree : dict) :
  has_char Py.SLASH key = false ->
  slash_free_keys tree -> slash_free_keys (assign_at parts key v tree).
Proof.
  intros Hkey. revert tree.
  induction parts as [|part parts IH]; intros tree H; simpl.
  - now apply slash_free_keys_set.
  - destruct (is_empty part); [now apply IH|].
    destruct (dict_get part tree) as [[t|d]|] eqn:G; try exact H.
    apply slash_free_keys_set; [|exact H]. now apply (H part (VDict d)).
Qed.

(** What the commands other than [cd] leave alone. *)
Lemma fold_print_frame (names : list string) (s : ShellEmulator) :
  let s' := fold_left (fun s' name => print name s') names s in
  current_path s' = current_path s /\ current_user s' = current_user s /\
  log_path s' = log_path s /\ log_file s' = log_file s.
Proof.
  revert s. induction names as [|n names IH]; intros s; simpl.
  - repeat split.
  - apply (IH (print n s)).
Qed.

Lemma ls_frame (P : Platform) (s : ShellEmulator) :
  current_path (ls P s) = current_path s /\
  current_user (ls P s) = current_user s /\
  log_path (ls P s) = log_path s /\ log_file (ls P s) = log_file s.
Proof.
  unfold ls. destruct (traverse_path _ _) as [node|]; simpl.
  - apply fold_print_frame.
  - repeat split.
Qed.

Lemma chown_frame (P : Platform) (args : list string) (s : ShellEmulator) :
  current_path (chown P args s) = current_path s /\
  current_user (chown P args s) = current_user s /\
  log_path (chown P args s) = log_path s /\
  log_file (chown P args s) = log_file s.
Proof.
  unfold chown. destruct args as [|owner [|path [|x args]]]; simpl;
    try (repeat split; reflexivity).
  destruct (traverse_path _ _) as [node|]; simpl;
    try (repeat split; reflexivity).
  destruct (dict_mem "owner" node); simpl; repeat split.
Qed.

Lemma uniq_frame (P : Platform) (args : list string) (s : ShellEmulator) :
  let s' := final_state (uniq P args s) in
  current_path s' = current_path s /\ current_user s' = current_user s /\
  log_path s' = log_path s /\ log_file s' = log_file s.
Proof.
  unfold uniq. destruct args as [|path [|x args]]; simpl;
    try (repeat split; reflexivity).
  destruct (traverse_path _ _) as [node|]; simpl;
    try (repeat split; reflexivity).
  destruct (dict_get "type" node) as [[ty|d]|]; simpl;
    try (repeat split; reflexivity).
  destruct (String.eqb ty "file"); simpl; try (repeat split; reflexivity).
  destruct (dict_get "content" node) as [[c|d]|]; simpl; repeat split.
Qed.

Lemma cd_frame (P : Platform) (args : list string) (s : ShellEmulator) :
  current_user (cd P args s) = current_user s /\
  log_path (cd P args s) = log_path s /\ log_file (cd P args s) = log_file s.
Proof.
  unfold cd. destruct args as [|path [|x args]]; simpl;
    try (repeat split; reflexivity).
  destruct (traverse_path _ _); simpl; repeat split.
Qed.

Lemma save_log_frame (P : Platform) (s : ShellEmulator) :
  current_path (save_log P s) = current_path s /\
  current_user (save_log P s) = current_user s /\
  log_path (save_log P s) = log_path s.
Proof.
  unfold save_log. destruct (log_actions s); simpl; [repeat split|].
  destruct (tree_write P (log_path s) (l :: l0)); simpl; repeat split.
Qed.

Lemma uniq_slash_free (P : Platform) (args : list string) (s : ShellEmulator) :
  slash_free_keys (fs s) ->
  slash_free_keys (fs (final_state (uniq P args s))).
Proof.
  intros Hk. unfold uniq. destruct args as [|path [|x args]]; simpl; auto.
  destruct (traverse_path _ _) as [node|]; simpl; auto.
  destruct (dict_get "type" node) as [[ty|d]|]; simpl; auto.
  destruct (String.eqb ty "file"); simpl; auto.
  destruct (dict_get "content" node) as [[c|d]|]; simpl; auto.
  now apply slash_free_keys_assign_at.
Qed.

Lemma chown_slash_free (P : Platform) (args : list string) (s : ShellEmulator) :
  slash_free_keys (fs s) -> slash_free_keys (fs (chown P args s)).
Proof.
  intros Hk. unfold chown.
  destruct args as [|owner [|path [|x args]]]; simpl; auto.
  destruct (traverse_path _ _) as [node|]; simpl; auto.
  destruct (dict_mem "owner" node); simpl; auto.
  now apply slash_free_keys_assign_at.
Qed.

Section PosixSession.

Variable clock : nat -> string.
Variable write : string -> list LogEntry -> option string.

Let PX : Platform := posix clock write.

(** What every state of a session on a POSIX system satisfies. *)
Lemma posix_step (line : string) (s : ShellEmulator) :
  slash_free_keys (fs s) -> current_path s = "/" ->
  slash_free_keys (fs (final_state (execute_command PX line s))) /\
  current_path (final_state (execute_command PX line s)) = "/".
Proof.
  intros Hk Hc. unfold execute_command.
  destruct (Py.split_ws (Py.strip Py.isspace line)) as [|cmd args];
    [now split|].
  destruct (String.eqb cmd "ls").
  { destruct (ls_logs_once PX s) as [_ Hf].
    destruct (ls_frame PX s) as [Hp _].
    simpl. rewrite Hf, Hp. now split. }
  destruct (String.eqb cmd "cd").
  { destruct (cd_logs_once PX args s) as [_ Hf]. simpl. rewrite Hf.
    split; auto.
    destruct args as [|path [|x args]]; try exact Hc.
    destruct (posix_cd_fails clock write s EmptyString path Hk Hc) as [H _].
    unfold PX. now rewrite H. }
  destruct (String.eqb cmd "chown").
  { destruct (chown_frame PX args s) as [Hp _]. simpl. rewrite Hp.
    split; [now apply chown_slash_free|exact Hc]. }
  destruct (String.eqb cmd "who"); [simpl; auto|].
  destruct (String.eqb cmd "uniq").
  { destruct (uniq_frame PX args s) as [Hp _]. rewrite Hp.
    split; [now apply uniq_slash_free|exact Hc]. }
  destruct (String.eqb cmd "exit").
  { simpl. destruct (save_log_keeps PX s) as [_ Hf].
    destruct (save_log_frame PX s) as [Hp _]. rewrite Hf, Hp. now split. }
  simpl. auto.
Qed.

Lemma posix_run_loop (lines : list string) (s : ShellEmulator) :
  slash_free_keys (fs s) -> current_path s = "/" ->
  slash_free_keys (fs (final_state (run_loop PX lines s))) /\
  current_path (final_state (run_loop PX lines s)) = "/".
Proof.
  revert s. induction lines as [|line lines IH]; intros s Hk Hc.
  - simpl. auto.
  - rewrite run_loop_cons.
    destruct (posix_step line (print (current_path s ++ "> ") s) Hk Hc)
      as [Hk' Hc'].
    destruct (execute_command PX line (print (current_path s ++ "> ") s))
      as [s'|s'|e s']; simpl in *; auto.
Qed.

End PosixSession.

Lemma last_status_log (P : Platform) (cmd st msg : string) (s : ShellEmulator) :
  last_status (log P cmd st msg s) = Some (st, msg).
Proof. unfold last_status. simpl. now rewrite rev_app_distr. Qed.

Lemma new_session_start (log answer : string) (members : list member)
    (s : ShellEmulator) :
  new_session log answer members = Ok s ->
  load_tar members = Ok (fs s) /\
  current_path s = "/" /\
  log_actions s = [] /\
  log_file s = None /\
  current_user s = fst (request_login answer) /\
  log_path s = log.
Proof.
  unfold new_session. destruct (request_login answer) as [user out].
  destruct (load_tar members) as [tree|e]; [|discriminate].
  simpl. intros H. inversion H; subst s. simpl. repeat split.
Qed.

(** X2. With the POSIX path functions a session never leaves the
    current path [/]: after any lines typed, the current path is [/], and
    there [ls], every [cd <path>] and every [chown <owner> <path>] report
    their error, the tree staying as it is.  ([traverse_path] splits on
    the backslash, and every path [os.path] builds begins with a
    slash.) *)
Theorem posix_session_stays_at_start (clock : nat -> string)
    (write : string -> list LogEntry -> option string)
    (log answer : string) (members : list member) (s0 : ShellEmulator)
    (lines : list string) :
  new_session log answer members = Ok s0 ->
  let PX := posix clock write in
  let s := final_state (run PX lines s0) in
  current_path s = "/" /\
  last_status (ls PX s) = Some (error, "Not a directory") /\
  (forall path,
     last_status (cd PX [path] s) = Some (error, "No such directory") /\
     current_path (cd PX [path] s) = "/") /\
  (forall owner path,
     last_status (chown PX [owner; path] s)
       = Some (error, "No such file or directory") /\
     fs (chown PX [owner; path] s) = fs s).
Proof.
  intros H PX s.
  destruct (new_session_start _ _ _ _ H) as (L & C & _).
  assert (K0 : slash_free_keys (fs s0)).
  { apply load_tar_slash_free_keys in L. now apply every_node_root in L. }
  destruct (posix_run_loop clock write lines
              (print "Welcome to Shell Emulator. Type 'exit' to quit." s0)
              K0 C) as [K Cs].
  fold PX in K, Cs. change (final_state (run_loop PX lines _)) with s in K, Cs.
  assert (T : forall rest, traverse_path (fs s) (String Py.SLASH rest) = None).
  { intros rest. now apply traverse_path_leading_slash. }
  split; [exact Cs|]. split; [|split].
  - unfold ls. rewrite Cs. change "/" with (String Py.SLASH EmptyString).
    rewrite T. apply last_status_log.
  - intros path.
    destruct (posix_cd_fails clock write s EmptyString path K Cs) as [H1 H2].
    fold PX in H1, H2. split; [exact H2|now rewrite H1].
  - intros owner path.
    assert (Tc : traverse_path (fs s) (os_path_join PX (current_path s) path)
                 = None).
    { rewrite Cs.
      change (os_path_join PX "/" path)
        with (PosixPath.join (String Py.SLASH EmptyString) path).
      destruct (posix_join_leading_slash EmptyString path) as [r ->].
      apply T. }
    unfold chown. rewrite Tc. split; [apply last_status_log|reflexivity].
Qed.

Lemma posix_session_stays_at_start_witness :
  exists s0,
    new_session "log.xml" "alice" sample_members = Ok s0 /\
    current_path
      (final_state (run unix ["cd d"; "ls"; "chown bob d"; "exit"] s0)) = "/".
Proof.
  destruct (new_session "log.xml" "alice" sample_members) as [s0|e] eqn:N;
    [|vm_compute in N; discriminate].
  exists s0. split; [reflexivity|].
  apply (posix_session_stays_at_start sample_clock writable "log.xml" "alice"
           sample_members s0 ["cd d"; "ls"; "chown bob d"; "exit"] N).
Defined.

(** ** The log of a session *)

(** What a line adds to the log: nothing, or one entry stamped with the
    reading of the clock for the length of the log. *)
Lemma execute_command_log (P : Platform) (line : string) (s : ShellEmulator) :
  let s' := final_state (execute_command P line s) in
  log_actions s' = log_actions s \/
  exists cmd st msg,
    log_actions s' =
      (log_actions s ++
       [{| timestamp := now_isoformat P (length (log_actions s));
           command := cmd; status := st; message := msg |}])%list /\
    ((st = success /\ msg = EmptyString) \/ (st = error /\ msg <> EmptyString)).
Proof.
  unfold execute_command.
  destruct (Py.split_ws (Py.strip Py.isspace line)) as [|cmd args];
    [now left|].
  destruct (String.eqb cmd "ls").
  { right. unfold ls. destruct (traverse_path _ _) as [node|]; simpl.
    - destruct (fold_print_keeps (dict_keys node) s) as [-> _].
      do 3 eexists. split; [reflexivity|entry_shape].
    - do 3 eexists. split; [reflexivity|entry_shape]. }
  destruct (String.eqb cmd "cd").
  { right. unfold cd. destruct args as [|path [|x args]]; simpl;
      try (do 3 eexists; split; [reflexivity|entry_shape]).
    destruct (traverse_path _ _); simpl;
      do 3 eexists; (split; [reflexivity|entry_shape]). }
  destruct (String.eqb cmd "chown").
  { right. unfold chown. destruct args as [|owner [|path [|x args]]]; simpl;
      try (do 3 eexists; split; [reflexivity|entry_shape]).
    destruct (traverse_path _ _) as [node|]; simpl;
      try (do 3 eexists; split; [reflexivity|entry_shape]).
    destruct (dict_mem "owner" node); simpl;
      do 3 eexists; (split; [reflexivity|entry_shape]). }
  destruct (String.eqb cmd "who").
  { right. simpl. do 3 eexists. split; [reflexivity|entry_shape]. }
  destruct (String.eqb cmd "uniq").
  { unfold uniq. destruct args as [|path [|x args]]; simpl;
      try (right; do 3 eexists; split; [reflexivity|entry_shape]).
    destruct (traverse_path _ _) as [node|]; simpl;
      try (right; do 3 eexists; split; [reflexivity|entry_shape]).
    destruct (dict_get "type" node) as [[ty|d]|]; simpl;
      try (right; do 3 eexists; split; [reflexivity|entry_shape]).
    destruct (String.eqb ty "file"); simpl;
      try (right; do 3 eexists; split; [reflexivity|entry_shape]).
    destruct (dict_get "content" node) as [[c|d]|]; simpl;
      try (now left);
      right; do 3 eexists; (split; [reflexivity|entry_shape]). }
  destruct (String.eqb cmd "exit").
  { left. simpl. apply save_log_keeps. }
  right. simpl. do 3 eexists. split; [reflexivity|entry_shape].
Qed.

(** What a line leaves alone: the user and the path of the log file,
    and, unless the line is [exit], the log file. *)
Lemma execute_command_frame (P : Platform) (line : string) (s : ShellEmulator) :
  let o := execute_command P line s in
  current_user (final_state o) = current_user s /\
  log_path (final_state o) = log_path s /\
  match o with
  | Exited _ => True
  | _ => log_file (final_state o) = log_file s
  end.
Proof.
  unfold execute_command.
  destruct (Py.split_ws (Py.strip Py.isspace line)) as [|cmd args];
    [simpl; auto|].
  destruct (String.eqb cmd "ls").
  { destruct (ls_frame P s) as (_ & H1 & H2 & H3). simpl. auto. }
  destruct (String.eqb cmd "cd").
  { destruct (cd_frame P args s) as (H1 & H2 & H3). simpl. auto. }
  destruct (String.eqb cmd "chown").
  { destruct (chown_frame P args s) as (_ & H1 & H2 & H3). simpl. auto. }
  destruct (String.eqb cmd "who"); [simpl; auto|].
  destruct (String.eqb cmd "uniq").
  { destruct (uniq_frame P args s) as (_ & H1 & H2 & H3).
    destruct (uniq P args s); simpl in *; auto. }
  destruct (String.eqb cmd "exit").
  { destruct (save_log_frame P s) as (_ & H1 & H2). simpl. auto. }
  simpl. auto.
Qed.

(** X3. The log is append-only, and a line adds at most one entry: after
    any lines typed, the log is the log from before followed by at most
    as many entries as lines; each of them is a success without a message
    or an error with one, and the timestamp of each is the reading of the
    clock for its position in the log. *)
Theorem log_is_append_only (P : Platform) (lines : list string)
    (s : ShellEmulator) :
  exists added,
    log_actions (final_state (run P lines s)) = (log_actions s ++ added)%list /\
    length added <= length lines /\
    Forall entry_ok added /\
    map timestamp added =
      map (now_isoformat P) (seq (length (log_actions s)) (length added)).
Proof.
  unfold run.
  change (log_actions s)
    with (log_actions (print "Welcome to Shell Emulator. Type 'exit' to quit." s)).
  generalize (print "Welcome to Shell Emulator. Type 'exit' to quit." s).
  clear s. induction lines as [|line lines IH]; intros s.
  - exists []. simpl. rewrite app_nil_r. repeat split; auto.
  - rewrite run_loop_cons.
    set (s1 := print (current_path s ++ "> ") s).
    pose proof (execute_command_log P line s1) as Hstep.
    change (log_actions s1) with (log_actions s) in Hstep.
    destruct (execute_command P line s1) as [s'|s'|e s'] eqn:E;
      cbn [final_state] in Hstep.
    + destruct (IH s') as (added & Hlog & Hlen & Hok & Hts).
      destruct Hstep as [Hsame|(cmd & st & msg & Hone & Hshape)].
      * exists added. rewrite Hsame in *. repeat split; auto. simpl. lia.
      * exists ({| timestamp := now_isoformat P (length (log_actions s));
                   command := cmd; status := st; message := msg |} :: added).
        rewrite Hlog, Hone, <- app_assoc. simpl. repeat split; auto; try lia.
        f_equal. rewrite Hts, Hone, length_app. simpl.
        now rewrite Nat.add_1_r.
    + destruct Hstep as [Hsame|(cmd & st & msg & Hone & Hshape)].
      * exists []. simpl. rewrite app_nil_r. repeat split; auto. lia.
      * eexists [_]. split; [exact Hone|]. simpl. repeat split; auto; lia.
    + destruct Hstep as [Hsame|(cmd & st & msg & Hone & Hshape)].
      * exists []. simpl. rewrite app_nil_r. repeat split; auto. lia.
      * eexists [_]. split; [exact Hone|]. simpl. repeat split; auto; lia.
Qed.

Lemma run_loop_never_returns (P : Platform) (lines : list string)
    (s s' : ShellEmulator) :
  run_loop P lines s <> Returned s'.
Proof.
  revert s. induction lines as [|line lines IH]; intros s; [discriminate|].
  rewrite run_loop_cons.
  destruct (execute_command P line _) as [s1|s1|e s1];
    [apply IH|discriminate|discriminate].
Qed.

(** X4. The log file is written by [exit] and by nothing else, and it
    holds the whole log: a session whose loop ends through [exit] has
    written the entries of its log, in their order, unless the log is
    empty or [tree.write] has raised; a session that ends otherwise has
    written nothing. *)
Theorem log_file_written_at_exit (P : Platform) (lines : list string)
    (s : ShellEmulator) :
  log_file s = None ->
  match run P lines s with
  | Exited s' =>
      log_path s' = log_path s /\
      log_file s' =
        match log_actions s', tree_write P (log_path s) (log_actions s') with
        | _ :: _, None => Some (log_actions s')
        | _, _ => None
        end
  | Raised _ s' => log_file s' = None
  | Returned _ => False
  end.
Proof.
  unfold run.
  assert (H0 : log_path (print "Welcome to Shell Emulator. Type 'exit' to quit." s)
               = log_path s) by reflexivity.
  revert H0.
  change (log_file s)
    with (log_file (print "Welcome to Shell Emulator. Type 'exit' to quit." s)).
  generalize (print "Welcome to Shell Emulator. Type 'exit' to quit." s).
  intros s1 Hp Hf. revert s1 Hp Hf.
  induction lines as [|line lines IH]; intros s1 Hp Hf; [exact Hf|].
  rewrite run_loop_cons.
  set (s2 := print (current_path s1 ++ "> ") s1).
  pose proof (execute_command_frame P line s2) as (_ & Hpath & Hfile).
  change (log_path s2) with (log_path s1) in Hpath.
  change (log_file s2) with (log_file s1) in Hfile.
  destruct (execute_command P line s2) as [s'|s'|e s'] eqn:E;
    cbn [final_state] in *.
  - apply IH; congruence.
  - split; [congruence|].
    unfold execute_command in E.
    destruct (Py.split_ws (Py.strip Py.isspace line)) as [|cmd args];
      [discriminate|].
    destruct (String.eqb cmd "ls"); [discriminate|].
    destruct (String.eqb cmd "cd"); [discriminate|].
    destruct (String.eqb cmd "chown"); [discriminate|].
    destruct (String.eqb cmd "who"); [discriminate|].
    destruct (String.eqb cmd "uniq").
    { unfold uniq in E.
      destruct args as [|path [|x args]]; try discriminate.
      destruct (traverse_path _ _) as [node|]; try discriminate.
      destruct (dict_get "type" node) as [[ty|d]|]; try discriminate.
      destruct (String.eqb ty "file"); try discriminate.
      destruct (dict_get "content" node) as [[c|d]|]; discriminate. }
    destruct (String.eqb cmd "exit"); [|discriminate].
    unfold exit_shell in E. inversion E; subst s'. clear E.
    unfold save_log. change (log_actions s2) with (log_actions s1).
    change (log_path s2) with (log_path s1).
    change (log_file s2) with (log_file s1). rewrite <- Hp.
    destruct (log_actions s1) as [|e es] eqn:L; simpl; rewrite ?L.
    + exact Hf.
    + destruct (tree_write P (log_path s1) (e :: es)) eqn:W; simpl;
        rewrite ?L, ?W; [exact Hf|reflexivity].
  - congruence.
Qed.

Lemma log_file_written_at_exit_witness :
  exists s0 s',
    session_on sample_members = Some s0 /\
    run windows ["who"; "exit"] s0 = Exited s' /\
    log_file s' = Some (log_actions s') /\
    length (log_actions s') = 1.
Proof.
  destruct (session_on sample_members) as [s0|] eqn:S;
    [|vm_compute in S; discriminate].
  assert (F : log_file s0 = None).
  { vm_compute in S. inversion S; subst s0. reflexivity. }
  pose proof (log_file_written_at_exit windows ["who"; "exit"] s0 F) as H.
  destruct (run windows ["who"; "exit"] s0) as [s'|s'|e s'] eqn:R.
  - contradiction.
  - exists s0, s'. split; [reflexivity|]. split; [exact R|].
    destruct H as [_ H].
    assert (Hl : length (log_actions s') = 1).
    { vm_compute in S. inversion S; subst s0.
      vm_compute in R. inversion R. reflexivity. }
    split; [|exact Hl]. rewrite H.
    destruct (log_actions s'); [discriminate|reflexivity].
  - vm_compute in S. inversion S; subst s0. vm_compute in R. discriminate.
Defined.

(** ** The user of a session *)

Lemma run_loop_user (P : Platform) (lines : list string) (s : ShellEmulator) :
  current_user (final_state (run_loop P lines s)) = current_user s.
Proof.
  revert s. induction lines as [|line lines IH]; intros s; [reflexivity|].
  rewrite run_loop_cons.
  pose proof (execute_command_frame P line (print (current_path s ++ "> ") s))
    as (Hu & _).
  destruct (execute_command P line _) as [s'|s'|e s']; cbn [final_state] in *.
  - rewrite IH. exact Hu.
  - exact Hu.
  - exact Hu.
Qed.

(** X5. The user of a session is fixed by the login: it is the answer
    without the white space around it, or [guest] when nothing is left,
    so it is never empty; no command changes it, and after any lines
    typed [who] prints it. *)
Theorem session_user_is_the_login (P : Platform) (log answer : string)
    (members : list member) (s0 : ShellEmulator) (lines : list string) :
  new_session log answer members = Ok s0 ->
  let s := final_state (run P lines s0) in
  current_user s = login_user answer /\
  current_user s <> EmptyString /\
  printed s (who P s) = ["User: " ++ current_user s] /\
  last_status (who P s) = Some (success, EmptyString).
Proof.
  intros H s.
  destruct (new_session_start _ _ _ _ H) as (_ & _ & _ & _ & U & _).
  assert (Hs : current_user s = login_user answer).
  { unfold s, run. rewrite run_loop_user. simpl. rewrite U.
    unfold request_login, login_user.
    now destruct (is_empty (Py.strip Py.isspace answer)). }
  split; [exact Hs|]. split; [|split].
  - rewrite Hs. unfold login_user.
    destruct (Py.strip Py.isspace answer); simpl; discriminate.
  - unfold who, printed. simpl.
    now rewrite skipn_app, skipn_all, Nat.sub_diag.
  - apply last_status_log.
Qed.

Lemma session_user_is_the_login_witness :
  exists s0,
    new_session "log.xml" "  " sample_members = Ok s0 /\
    current_user (final_state (run windows ["cd d"; "who"] s0)) = "guest".
Proof.
  destruct (new_session "log.xml" "  " sample_members) as [s0|e] eqn:N;
    [|vm_compute in N; discriminate].
  exists s0. split; [reflexivity|].
  apply (session_user_is_the_login windows "log.xml" "  " sample_members s0
           ["cd d"; "who"] N).
Defined.

(** ** How a session ends *)

Lemma execute_command_outcome (P : Platform) (line : string) (s : ShellEmulator) :
  every_node text_file (fs s) ->
  (is_exit line /\ exists s', execute_command P line s = Exited s') \/
  (~ is_exit line /\
   exists s', execute_command P line s = Returned s' /\
              every_node text_file (fs s')).
Proof.
  intros H. destruct (words line) as [|cmd args] eqn:W.
  - right. split; [intros [a Ha]; congruence|].
    exists s. split; [|exact H].
    unfold execute_command. unfold words in W. now rewrite W.
  - destruct (string_dec cmd "exit") as [->|Hne].
    + left. split; [now exists args|].
      destruct (execute_command_exit P line args s W) as (s' & E & _). eauto.
    + right. split; [intros [a Ha]; congruence|].
      destruct (execute_command_logs_once P line s H) as (s' & E & _ & T);
        [now exists cmd, args|]. eauto.
Qed.

(** X6. On an archive in which no member has a part named [content], no
    command raises, whatever is typed: the session ends through [exit]
    when a line has [exit] as its first word, and otherwise when the
    input is used up, where [input] raises [EOFError]. *)
Theorem session_ends_by_exit_or_end_of_input (P : Platform)
    (log answer : string) (members : list member) (s0 : ShellEmulator)
    (lines : list string) :
  Forall (fun m => ~ In "content" (member_parts m)) members ->
  new_session log answer members = Ok s0 ->
  (Exists is_exit lines /\ exists s', run P lines s0 = Exited s') \/
  (~ Exists is_exit lines /\ exists s', run P lines s0 = Raised EOFError s').
Proof.
  intros Hm H.
  destruct (new_session_start _ _ _ _ H) as (L & _).
  pose proof (load_tar_text_files members (fs s0) Hm L) as T.
  unfold run.
  change (fs s0)
    with (fs (print "Welcome to Shell Emulator. Type 'exit' to quit." s0)) in T.
  revert T. generalize (print "Welcome to Shell Emulator. Type 'exit' to quit." s0).
  clear. induction lines as [|line lines IH]; intros s T.
  - right. split; [intros E; inversion E|]. simpl. eauto.
  - rewrite run_loop_cons.
    destruct (execute_command_outcome P line (print (current_path s ++ "> ") s) T)
      as [(Hx & s' & E)|(Hx & s' & E & T')]; rewrite E.
    + left. split; [now left|eauto].
    + destruct (IH s' T') as [(Hr & R)|(Hr & R)].
      * left. split; [now right|exact R].
      * right. split; [|exact R].
        intros Ex. inversion Ex; subst; contradiction.
Qed.

Lemma session_ends_by_exit_or_end_of_input_witness :
  exists s0 s',
    new_session "log.xml" "alice" sample_members = Ok s0 /\
    run windows ["uniq d\f"; "frobnicate"] s0 = Raised EOFError s'.
Proof.
  destruct (new_session "log.xml" "alice" sample_members) as [s0|e] eqn:N;
    [|vm_compute in N; discriminate].
  destruct (session_ends_by_exit_or_end_of_input windows "log.xml" "alice"
              sample_members s0 ["uniq d\f"; "frobnicate"])
    as [(Hx & _)|(_ & s' & R)].
  - repeat constructor; vm_compute; intuition discriminate.
  - exact N.
  - exfalso. inversion Hx as [? ? [a Ha]|? ? Hx']; subst.
    + vm_compute in Ha. discriminate.
    + inversion Hx' as [? ? [a Ha]|? ? Hx'']; subst.
      * vm_compute in Ha. discriminate.
      * inversion Hx''.
  - exists s0, s'. split; [reflexivity|exact R].
Defined.

(** ** Commands that fail, and commands that are repeated *)

(** X7. A command changes the tree or the current path only when it
    logs a success: whenever a line has left the tree or the current path
    different, the entry it has appended is a success.  A command that
    reports an error, and one that raises, leave both as they were. *)
Theorem command_changes_state_only_on_success (P : Platform) (line : string)
    (s : ShellEmulator) :
  let s' := final_state (execute_command P line s) in
  (fs s' = fs s /\ current_path s' = current_path s) \/
  (logs_once s s' /\ last_status s' = Some (success, EmptyString)).
Proof.
  unfold execute_command.
  destruct (Py.split_ws (Py.strip Py.isspace line)) as [|cmd args];
    [now left|].
  destruct (String.eqb cmd "ls").
  { left. cbn [final_state]. split; [apply ls_logs_once|apply ls_frame]. }
  destruct (String.eqb cmd "cd").
  { cbn [final_state]. unfold cd.
    destruct args as [|path [|x args]]; try (now left).
    destruct (traverse_path _ _); [right|now left].
    split; [|apply last_status_log]. unfold logs_once. simpl. eauto. }
  destruct (String.eqb cmd "chown").
  { cbn [final_state]. unfold chown.
    destruct args as [|owner [|path [|x args]]]; try (now left).
    destruct (traverse_path _ _) as [node|]; [|now left].
    destruct (dict_mem "owner" node); [right|now left].
    split; [|apply last_status_log]. unfold logs_once. simpl. eauto. }
  destruct (String.eqb cmd "who"); [now left|].
  destruct (String.eqb cmd "uniq").
  { unfold uniq. destruct args as [|path [|x args]]; try (now left).
    destruct (traverse_path _ _) as [node|]; [|now left].
    destruct (dict_get "type" node) as [[ty|d]|]; try (now left).
    destruct (String.eqb ty "file"); [|now left].
    destruct (dict_get "content" node) as [[c|d]|]; try (now left).
    right. cbn [final_state].
    split; [|apply last_status_log]. unfold logs_once. simpl. eauto. }
  destruct (String.eqb cmd "exit").
  { left. cbn [final_state exit_shell]. simpl.
    split; [apply save_log_keeps|apply save_log_frame]. }
  now left.
Qed.

Lemma dict_set_set (k : string) (v1 v2 : value) (d : dict) :
  dict_set k v2 (dict_set k v1 d) = dict_set k v2 d.
Proof.
  induction d as [|[k' v'] d IH]; simpl.
  - now rewrite String.eqb_refl.
  - destruct (String.eqb k' k) eqn:E; simpl.
    + now rewrite String.eqb_refl.
    + now rewrite E, IH.
Qed.

Lemma assign_at_assign_at (parts : list string) (key : string)
    (v1 v2 : value) (tree : dict) :
  assign_at parts key v2 (assign_at parts key v1 tree)
  = assign_at parts key v2 tree.
Proof.
  revert tree. induction parts as [|part parts IH]; intros tree; simpl.
  - apply dict_set_set.
  - destruct (is_empty part); [apply IH|].
    destruct (dict_get part tree) as [[t|d]|] eqn:G.
    + now rewrite G.
    + now rewrite dict_get_set_same, IH, dict_set_set.
    + now rewrite G.
Qed.

(** X8. Of two [chown] on the same path, the second decides: the tree
    after [chown o1 p] and then [chown o2 p] is the tree after [chown o2 p]
    alone.  With the same owner twice, the second [chown] changes
    nothing. *)
Theorem chown_last_wins (P : Platform) (s : ShellEmulator)
    (o1 o2 path : string) :
  fs (chown P [o2; path] (chown P [o1; path] s)) = fs (chown P [o2; path] s) /\
  fs (chown P [o1; path] (chown P [o1; path] s)) = fs (chown P [o1; path] s).
Proof.
  assert (H : forall a b,
    fs (chown P [b; path] (chown P [a; path] s)) = fs (chown P [b; path] s)).
  { intros a b.
    destruct (chown_frame P [a; path] s) as [Hc _].
    unfold chown at 1 3. rewrite Hc.
    set (target := os_path_join P (current_path s) path).
    unfold chown. fold target.
    destruct (traverse_path (fs s) target) as [node|] eqn:T.
    - destruct (dict_mem "owner" node) eqn:M; simpl.
      + unfold traverse_path in *.
        rewrite (walk_assign_at _ "owner" (VStr a) _ _ T).
        assert (M' : dict_mem "owner" (dict_set "owner" (VStr a) node) = true).
        { unfold dict_mem. now rewrite dict_get_set_same. }
        rewrite M'. simpl. apply assign_at_assign_at.
      + rewrite T, M. reflexivity.
    - simpl. rewrite T. reflexivity. }
  split; [apply H|].
  rewrite H. reflexivity.
Qed.

(** ** What [load_tar] accepts and what it stores *)

Lemma strings_reserved_set_child (part : string) (sub node : dict) :
  strings_reserved node -> strings_reserved (dict_set part (VDict sub) node).
Proof.
  intros H k t Hk. destruct (string_dec k part) as [->|Hne].
  - rewrite dict_get_set_same in Hk. discriminate.
  - rewrite dict_get_set_other in Hk by assumption. now apply (H k t).
Qed.

Lemma strings_reserved_checked (d : dict) :
  forallb (fun kv => reserved_key (fst kv)) d = true -> strings_reserved d.
Proof.
  intros H k t Hk. rewrite forallb_forall in H.
  apply dict_get_In in Hk. now apply (H (k, VStr t)).
Qed.

Lemma store_every_node_strings (dirs : list string) (name : string)
    (k : member_kind) (node tree : dict) :
  every_node strings_reserved node ->
  store dirs name k node = Ok tree ->
  every_node strings_reserved tree.
Proof.
  apply store_every_node with (Good := fun _ => True).
  - intros k' t Hk. discriminate.
  - intros content. apply every_node_flat; [|apply flat_file_literal].
    now apply strings_reserved_checked.
  - apply every_node_flat; [|apply flat_dir_literal].
    now apply strings_reserved_checked.
  - intros part sub n _. apply strings_reserved_set_child.
  - rewrite Forall_forall. auto.
  - exact I.
Qed.

(** [store] raises only where it meets a string on its way. *)
Lemma store_succeeds (dirs : list string) (name : string) (k : member_kind)
    (node : dict) :
  Forall (fun part => reserved_key part = false) dirs ->
  every_node strings_reserved node ->
  exists tree, store dirs name k node = Ok tree.
Proof.
  intros Hd. revert node.
  induction Hd as [|part rest Hpart Hrest IH]; intros node Hn; simpl.
  - eauto.
  - destruct (dict_get part node) as [[t|d]|] eqn:G.
    + apply every_node_root in Hn. apply Hn in G. congruence.
    + destruct (IH d) as [sub ->]; [eapply every_node_child; eauto|].
      simpl. eauto.
    + destruct (IH []) as [sub ->].
      * apply every_node_empty. intros k' t Hk. discriminate.
      * simpl. eauto.
Qed.

(** The loop over members whose contents are decoded raises only when a
    member lies beneath a name that is one of the keys [type], [content]
    and [owner]; files beneath files are stored. *)
Lemma load_tar_succeeds (members : list member) :
  Forall (fun m =>
            Forall (fun part => reserved_key part = false)
                   (removelast (member_parts m))) members ->
  exists tree, load_tar members = Ok tree.
Proof.
  intros H. unfold load_tar.
  assert (H0 : every_node strings_reserved []).
  { apply every_node_empty. intros k t Hk. discriminate. }
  revert H0. generalize (@nil (string * value)).
  induction H as [|m members Hm Hrest IH]; intros fs0 H0; simpl; [eauto|].
  destruct (store_succeeds (removelast (member_parts m))
              (last (member_parts m) EmptyString) (kind m) fs0 Hm H0)
    as [fs1 S].
  unfold load_member. fold (member_parts m). rewrite S. simpl.
  apply IH. eapply store_every_node_strings; eauto.
Qed.

Example load_tar_beneath_file :
  exists tree,
    load_tar [ {| member_name := "f"; kind := IsFile "x" |};
               {| member_name := "f/g/type"; kind := IsFile "y" |};
               {| member_name := "d"; kind := IsDir |} ] = Ok tree.
Proof.
  apply load_tar_succeeds. repeat constructor.
Qed.

(** The exceptions of [load_tar]: a member beneath [type], the string of
    a directory, cannot be stored. *)
Example load_tar_raises :
  load_tar [ {| member_name := "d"; kind := IsDir |};
             {| member_name := "d/type/x"; kind := IsFile "y" |} ]
    = Raise TypeError /\
  load_tar [ {| member_name := "d"; kind := IsDir |};
             {| member_name := "d/type/x/y"; kind := IsFile "y" |} ]
    = Raise AttributeError.
Proof. split; reflexivity. Qed.

(** *** The exceptions of [load_tar] as a whole *)

Lemma store_read_decoded (name : string) (k : tar_kind) (k' : member_kind)
    (dirs : list string) (node : dict) :
  decoded k = Ok k' ->
  store_read dirs name k node = store dirs name k' node.
Proof.
  intros Hk. revert node.
  induction dirs as [|part rest IH]; intros node; simpl.
  - now rewrite Hk.
  - destruct (dict_get part node) as [[t|d]|].
    + destruct rest; [|reflexivity]. rewrite Hk. simpl. now destruct k'.
    + now rewrite IH.
    + now rewrite IH.
Qed.

(** The loop on members whose contents are decoded is [load_tar] on a
    recognised archive that has these members. *)
Lemma load_archive_decoded (members : list member) :
  load_archive {| is_tarfile := true; getmembers := map as_read members |}
  = load_tar members.
Proof.
  unfold load_archive, load_tar. simpl. generalize (@nil (string * value)).
  induction members as [|m members IH]; intros fs0; simpl; [reflexivity|].
  assert (E : load_read_member fs0 (as_read m) = load_member fs0 m).
  { unfold load_read_member, load_member. simpl.
    apply store_read_decoded. now destruct (kind m). }
  rewrite E. destruct (load_member fs0 m); simpl; [apply IH|reflexivity].
Qed.

(** An exception of decoding comes out of the loop body as it is, when
    [setdefault] meets no string on the way to the parent. *)
Lemma store_read_raises (dirs : list string) (name : string) (e : exn)
    (node : dict) :
  Forall (fun part => reserved_key part = false) dirs ->
  every_node strings_reserved node ->
  store_read dirs name (TarFile (Raise e)) node = Raise e.
Proof.
  intros Hd. revert node.
  induction Hd as [|part rest Hpart Hrest IH]; intros node Hn; simpl.
  - reflexivity.
  - destruct (dict_get part node) as [[t|d]|] eqn:G.
    + apply every_node_root in Hn. apply Hn in G. congruence.
    + rewrite IH; [reflexivity|]. eapply every_node_child; eauto.
    + rewrite IH; [reflexivity|].
      apply every_node_empty. intros k' t Hk. discriminate.
Qed.

Lemma load_read_members_succeed (members : list tar_member) (fs0 : dict) :
  Forall loadable members ->
  every_node strings_reserved fs0 ->
  exists tree,
    load_read_members members fs0 = Ok tree /\
    every_node strings_reserved tree.
Proof.
  intros H. revert fs0.
  induction H as [|m members [[k Hk] Hm] Hrest IH]; intros fs0 H0; simpl;
    [eauto|].
  unfold load_read_member. fold (tar_parts m).
  rewrite (store_read_decoded _ _ _ _ _ Hk).
  destruct (store_succeeds (removelast (tar_parts m))
              (last (tar_parts m) EmptyString) k fs0 Hm H0) as [fs1 S].
  rewrite S. simpl. apply IH. eapply store_every_node_strings; eauto.
Qed.

Lemma load_read_members_app (before after : list tar_member) (fs0 : dict) :
  load_read_members (before ++ after) fs0 =
  fs1 <- load_read_members before fs0 ;; load_read_members after fs1.
Proof.
  revert fs0. induction before as [|m before IH]; intros fs0; simpl;
    [reflexivity|].
  destruct (load_read_member fs0 m); simpl; [apply IH|reflexivity].
Qed.

(** X9. The exceptions of [load_tar].  It raises [ValueError] when
    [tarfile] does not recognise the archive.  On a recognised archive it
    raises nothing when the content of every file can be decoded and no
    member lies beneath a name that is one of the keys [type], [content]
    and [owner], files beneath files included.  And the exception that
    decoding the content of a file raises is the exception of [load_tar],
    when the members before that file are of this kind and none of its
    parents has such a name. *)
Theorem load_archive_succeeds (a : tar_archive) :
  (is_tarfile a = false -> load_archive a = Raise ValueError) /\
  (is_tarfile a = true ->
   Forall loadable (getmembers a) ->
   exists tree, load_archive a = Ok tree) /\
  (forall before m after e,
     is_tarfile a = true ->
     getmembers a = (before ++ m :: after)%list ->
     Forall loadable before ->
     Forall (fun part => reserved_key part = false)
            (removelast (tar_parts m)) ->
     tar_kind_of m = TarFile (Raise e) ->
     load_archive a = Raise e).
Proof.
  assert (H0 : every_node strings_reserved []).
  { apply every_node_empty. intros k t Hk. discriminate. }
  unfold load_archive. split; [|split].
  - now intros ->.
  - intros -> H.
    destruct (load_read_members_succeed _ [] H H0) as [tree [L _]]. eauto.
  - intros before m after e -> Hm Hb Hd Hk. rewrite Hm.
    rewrite load_read_members_app.
    destruct (load_read_members_succeed before [] Hb H0) as [fs1 [L H1]].
    rewrite L. simpl. unfold load_read_member. fold (tar_parts m).
    rewrite Hk. now rewrite store_read_raises.
Qed.

Lemma load_archive_succeeds_witness :
  (exists tree,
     load_archive
       {| is_tarfile := true;
          getmembers :=
            [ {| tar_name := "f"; tar_kind_of := TarFile (Ok "x") |};
              {| tar_name := "f/g/type"; tar_kind_of := TarFile (Ok "y") |};
              {| tar_name := "d"; tar_kind_of := TarDir |} ] |} = Ok tree) /\
  load_archive
    {| is_tarfile := true;
       getmembers :=
         [ {| tar_name := "d"; tar_kind_of := TarDir |};
           {| tar_name := "d/f";
              tar_kind_of := TarFile (Raise UnicodeDecodeError) |};
           {| tar_name := "g"; tar_kind_of := TarFile (Ok "x") |} ] |}
  = Raise UnicodeDecodeError.
Proof.
  split.
  - apply load_archive_succeeds; [reflexivity|].
    repeat constructor; simpl; eauto.
  - apply (proj2 (proj2 (load_archive_succeeds _))
             [ {| tar_name := "d"; tar_kind_of := TarDir |} ]
             {| tar_name := "d/f";
                tar_kind_of := TarFile (Raise UnicodeDecodeError) |}
             [ {| tar_name := "g"; tar_kind_of := TarFile (Ok "x") |} ]);
      try reflexivity.
    + repeat constructor; simpl; eauto.
    + repeat constructor.
Defined.

(** The exceptions of [load_tar] on archives as they are read: one that
    is not recognised, and a file beneath [type] whose content cannot be
    decoded either, where the assignment is not reached. *)
Example load_archive_raises :
  load_archive {| is_tarfile := false; getmembers := [] |} = Raise ValueError /\
  load_archive
    {| is_tarfile := true;
       getmembers :=
         [ {| tar_name := "d"; tar_kind_of := TarDir |};
           {| tar_name := "d/type/x";
              tar_kind_of := TarFile (Raise UnicodeDecodeError) |} ] |}
    = Raise UnicodeDecodeError /\
  load_archive
    {| is_tarfile := true;
       getmembers :=
         [ {| tar_name := "d"; tar_kind_of := TarDir |};
           {| tar_name := "d/type/x/y";
              tar_kind_of := TarFile (Raise UnicodeDecodeError) |} ] |}
    = Raise AttributeError.
Proof. repeat split; reflexivity. Qed.

Lemma store_stores_node (dirs : list string) (name : string) (k : member_kind)
    (node tree leaf : dict) :
  member_node k = Some leaf ->
  store dirs name k node = Ok tree ->
  node_at (dirs ++ [name]) tree = Some leaf.
Proof.
  intros Hk. revert node tree.
  induction dirs as [|part rest IH]; intros node tree Hs; simpl in Hs.
  - inversion Hs; subst tree. simpl.
    destruct k as [content| |]; simpl in *; inversion Hk; subst leaf;
      unfold file_node, dir_node; now rewrite dict_get_set_same.
  - simpl. destruct (dict_get part node) as [[t|d]|] eqn:G.
    + destruct rest, k; discriminate.
    + destruct (store rest name k d) as [sub|e] eqn:S; [|discriminate].
      simpl in Hs. inversion Hs; subst tree.
      rewrite dict_get_set_same. now apply (IH d).
    + destruct (store rest name k []) as [sub|e] eqn:S; [|discriminate].
      simpl in Hs. inversion Hs; subst tree.
      rewrite dict_get_set_same. now apply (IH []).
Qed.

Lemma load_member_node_at (fs0 fs1 : dict) (m : member) (leaf : dict) :
  load_member fs0 m = Ok fs1 ->
  member_node (kind m) = Some leaf ->
  node_at (member_parts m) fs1 = Some leaf.
Proof.
  intros H Hk. unfold load_member in H.
  apply (store_stores_node _ _ _ _ _ leaf Hk) in H.
  rewrite <- app_removelast_last in H; [exact H|apply split_not_nil].
Qed.

Lemma store_other_keys (dirs : list string) (name : string) (k : member_kind)
    (node tree : dict) (key : string) :
  store dirs name k node = Ok tree ->
  key <> hd EmptyString (dirs ++ [name]) ->
  dict_get key tree = dict_get key node.
Proof.
  destruct dirs as [|part rest]; simpl; intros Hs Hne.
  - inversion Hs; subst tree.
    destruct k; simpl; try reflexivity; now apply dict_get_set_other.
  - destruct (dict_get part node) as [[t|d]|] eqn:G.
    + destruct rest, k; try discriminate. now inversion Hs.
    + destruct (store rest name k d) as [sub|e]; [|discriminate].
      simpl in Hs. inversion Hs. now apply dict_get_set_other.
    + destruct (store rest name k []) as [sub|e]; [|discriminate].
      simpl in Hs. inversion Hs. now apply dict_get_set_other.
Qed.

(** X10. Right after a file or directory member has been loaded, the
    keys of its name lead from the root to the node of that member, a
    fresh one: a file with its content and the owner [root], or a
    directory without children, whatever the tree held at that place
    before.  What lies under another key of the root than the first part
    of the name is left as it was. *)
Theorem load_member_stores_node (fs0 fs1 : dict) (m : member) (leaf : dict) :
  load_member fs0 m = Ok fs1 ->
  member_node (kind m) = Some leaf ->
  node_at (member_parts m) fs1 = Some leaf /\
  forall key keys,
    key <> hd EmptyString (member_parts m) ->
    node_at (key :: keys) fs1 = node_at (key :: keys) fs0.
Proof.
  intros H Hk. split; [exact (load_member_node_at fs0 fs1 m leaf H Hk)|].
  intros key keys Hne. unfold load_member in H. unfold member_parts in Hne.
  rewrite (app_removelast_last EmptyString (split_not_nil Py.SLASH (member_name m)))
    in Hne.
  simpl. now rewrite (store_other_keys _ _ _ _ _ key H Hne).
Qed.

Lemma load_member_stores_node_witness :
  exists fs0 fs1,
    load_tar sample_members = Ok fs0 /\
    load_member fs0 {| member_name := "p/q"; kind := IsDir |} = Ok fs1 /\
    node_at ["p"; "q"] fs0
      = Some [("r", file_node "y")] /\
    node_at ["p"; "q"] fs1
      = Some [("type", VStr "dir"); ("owner", VStr default_owner)].
Proof.
  destruct (load_tar sample_members) as [fs0|e] eqn:L;
    [|vm_compute in L; discriminate].
  destruct (load_member fs0 {| member_name := "p/q"; kind := IsDir |})
    as [fs1|e] eqn:M;
    [|vm_compute in L; inversion L; subst; vm_compute in M; discriminate].
  exists fs0, fs1. split; [reflexivity|]. split; [exact M|]. split.
  - vm_compute in L. inversion L. reflexivity.
  - apply (load_member_stores_node fs0 fs1
             {| member_name := "p/q"; kind := IsDir |} _ M). reflexivity.
Defined.

(** ** The parts of a path *)

Lemma split_cons (sep c : ascii) (s : string) :
  Py.split sep (String c s) =
  if Ascii.eqb c sep then EmptyString :: Py.split sep s
  else match Py.split sep s with
       | [] => [Py.chr c]
       | w :: ws => String c w :: ws
       end.
Proof. reflexivity. Qed.

Lemma used_parts_app (l1 l2 : list string) :
  used_parts (l1 ++ l2) = (used_parts l1 ++ used_parts l2)%list.
Proof. apply filter_app. Qed.

Lemma used_parts_repeat (k : nat) : used_parts (repeat EmptyString k) = [].
Proof. induction k as [|k IH]; [reflexivity|exact IH]. Qed.

Lemma split_lstrip (sep : ascii) (s : string) :
  used_parts (Py.split sep (Py.lstrip (Ascii.eqb sep) s))
  = used_parts (Py.split sep s).
Proof.
  induction s as [|c s IH]; [reflexivity|].
  cbn [Py.lstrip]. rewrite (split_cons sep c s), (Ascii.eqb_sym sep c).
  destruct (Ascii.eqb c sep) eqn:E; [exact IH|].
  now rewrite split_cons, E.
Qed.

(** The separators that [rstrip] removes are empty parts at the end. *)
Lemma split_rstrip (sep : ascii) (s : string) :
  exists k,
    Py.split sep s
    = (Py.split sep (Py.rstrip (Ascii.eqb sep) s) ++ repeat EmptyString k)%list.
Proof.
  induction s as [|c s [k IH]]; [exists 0; reflexivity|].
  cbn [Py.rstrip]. rewrite (split_cons sep c s), (Ascii.eqb_sym sep c).
  destruct (Py.rstrip (Ascii.eqb sep) s) as [|c' r] eqn:R.
  - change (Py.split sep EmptyString) with [EmptyString] in IH.
    destruct (Ascii.eqb c sep) eqn:E.
    + exists (S k). rewrite IH. reflexivity.
    + exists k. rewrite IH. unfold Py.chr. rewrite split_cons, E. reflexivity.
  - destruct (Ascii.eqb c sep) eqn:E.
    + exists k. rewrite (split_cons sep c (String c' r)), E, IH. reflexivity.
    + exists k. rewrite (split_cons sep c (String c' r)), E, IH.
      destruct (Py.split sep (String c' r)) as [|w ws] eqn:S;
        [now apply split_not_nil in S|reflexivity].
Qed.

Lemma used_parts_path_parts (path : string) :
  used_parts (path_parts path) = used_parts (Py.split Py.BACKSLASH path).
Proof.
  unfold path_parts, Py.strip.
  destruct (split_rstrip Py.BACKSLASH
              (Py.lstrip (Ascii.eqb Py.BACKSLASH) path)) as [k Hk].
  rewrite <- (split_lstrip Py.BACKSLASH path), Hk.
  now rewrite used_parts_app, used_parts_repeat, app_nil_r.
Qed.

Lemma split_app_sep (sep : ascii) (a b : string) :
  Py.split sep (a ++ String sep b) = (Py.split sep a ++ Py.split sep b)%list.
Proof.
  induction a as [|c a IH].
  - simpl. now rewrite Ascii.eqb_refl.
  - change (String c a ++ String sep b) with (String c (a ++ String sep b)).
    rewrite !split_cons, IH.
    destruct (Ascii.eqb c sep); [reflexivity|].
    destruct (Py.split sep a) as [|w ws] eqn:S;
      [now apply split_not_nil in S|reflexivity].
Qed.

(** X11. [traverse_path] follows the parts between the backslashes of
    the whole path and skips the empty ones: backslashes at the beginning
    and at the end of a path, and a doubled backslash inside it, make no
    difference to what the path resolves to. *)
Theorem traverse_path_skips_empty_parts (tree : dict) (path : string) :
  traverse_path tree path
    = node_at (used_parts (Py.split Py.BACKSLASH path)) tree /\
  traverse_path tree (String Py.BACKSLASH path) = traverse_path tree path /\
  traverse_path tree (path ++ NtPath.sep) = traverse_path tree path /\
  forall rest,
    traverse_path tree (path ++ NtPath.sep ++ NtPath.sep ++ rest)
    = traverse_path tree (path ++ NtPath.sep ++ rest).
Proof.
  assert (H : forall p,
    traverse_path tree p = node_at (used_parts (Py.split Py.BACKSLASH p)) tree).
  { intros p. unfold traverse_path.
    now rewrite walk_used_parts, used_parts_path_parts. }
  split; [apply H|]. split; [|split].
  - rewrite !H, split_cons, Ascii.eqb_refl. reflexivity.
  - rewrite !H. unfold NtPath.sep, Py.chr.
    rewrite split_app_sep, used_parts_app. simpl. now rewrite app_nil_r.
  - intros rest. rewrite !H. unfold NtPath.sep, Py.chr.
    change (String Py.BACKSLASH EmptyString ++ String Py.BACKSLASH EmptyString ++ rest)
      with (String Py.BACKSLASH (String Py.BACKSLASH rest)).
    change (String Py.BACKSLASH EmptyString ++ rest)
      with (String Py.BACKSLASH rest).
    rewrite !split_app_sep, !used_parts_app.
    rewrite (split_cons Py.BACKSLASH Py.BACKSLASH rest), Ascii.eqb_refl.
    reflexivity.
Qed.

Lemma split_replace (a b : ascii) (s : string) :
  has_char b s = false ->
  Py.split b (Py.replace a b s) = Py.split a s.
Proof.
  induction s as [|c s IH]; intros H; [reflexivity|].
  simpl in H. apply orb_false_iff in H. destruct H as [Hc Hs].
  cbn [Py.replace]. rewrite !split_cons.
  destruct (Ascii.eqb c a) eqn:E.
  - now rewrite Ascii.eqb_refl, IH.
  - now rewrite Hc, IH.
Qed.

Lemma used_parts_id (parts : list string) :
  Forall (fun part => part <> EmptyString) parts -> used_parts parts = parts.
Proof.
  induction 1 as [|part parts Hp Hrest IH]; [reflexivity|].
  simpl. rewrite IH. destruct part; [congruence|reflexivity].
Qed.

(** X12. A member that is a file or a directory can be resolved right
    after it has been loaded, by its name with a backslash for each slash:
    when the name holds no backslash and none of its parts is empty,
    [traverse_path] returns the node of the member for that path. *)
Theorem loaded_member_resolves (fs0 fs1 : dict) (m : member) (leaf : dict) :
  load_member fs0 m = Ok fs1 ->
  member_node (kind m) = Some leaf ->
  has_char Py.BACKSLASH (member_name m) = false ->
  Forall (fun part => part <> EmptyString) (member_parts m) ->
  traverse_path fs1 (Py.replace Py.SLASH Py.BACKSLASH (member_name m))
    = Some leaf.
Proof.
  intros H Hk Hb Hp.
  unfold traverse_path.
  rewrite walk_used_parts, used_parts_path_parts, split_replace by assumption.
  fold (member_parts m). rewrite used_parts_id by assumption.
  exact (load_member_node_at fs0 fs1 m leaf H Hk).
Qed.

Lemma loaded_member_resolves_witness :
  exists fs1,
    load_member [] {| member_name := "p/q/r.txt"; kind := IsFile "y" |}
      = Ok fs1 /\
    traverse_path fs1 "p\q\r.txt"
      = Some [("type", VStr "file"); ("content", VStr "y");
              ("owner", VStr default_owner)].
Proof.
  destruct (load_member [] {| member_name := "p/q/r.txt"; kind := IsFile "y" |})
    as [fs1|e] eqn:M; [|vm_compute in M; discriminate].
  exists fs1. split; [reflexivity|].
  apply (loaded_member_resolves [] fs1
           {| member_name := "p/q/r.txt"; kind := IsFile "y" |} _ M).
  - reflexivity.
  - reflexivity.
  - repeat constructor; discriminate.
Defined.

(** ** The text that [uniq] stores *)

(** X13. The lines that [uniq] keeps do not depend on the order in which
    Python enumerates [set(lines)]: sorting any enumeration of the set by
    [lines.index] gives each line once, in the order of the first
    occurrences, beginning with the first line. *)
Theorem uniq_keeps_first_occurrences (lines elems : list string) :
  NoDup elems ->
  (forall x, In x elems <-> In x lines) ->
  let kept := Py.sorted (Py.index lines) elems in
  kept = Py.sorted (Py.index lines) (Py.set lines) /\
  NoDup kept /\
  (forall x, In x kept <-> In x lines) /\
  StronglySorted (key_lt (Py.index lines)) kept /\
  hd_error kept = hd_error lines.
Proof.
  intros Hnd Hin kept. unfold kept.
  rewrite (sorted_any_set lines elems Hnd Hin), sorted_set.
  split; [reflexivity|]. split; [apply first_occurrences_NoDup|].
  split; [apply first_occurrences_In|].
  split; [apply first_occurrences_sorted|].
  now destruct lines.
Qed.

Lemma uniq_keeps_first_occurrences_witness :
  Py.sorted (Py.index ["b"; "a"; "b"; "c"; "a"]) ["c"; "a"; "b"]
  = Py.sorted (Py.index ["b"; "a"; "b"; "c"; "a"])
      (Py.set ["b"; "a"; "b"; "c"; "a"]).
Proof.
  apply (uniq_keeps_first_occurrences ["b"; "a"; "b"; "c"; "a"] ["c"; "a"; "b"]).
  - repeat constructor; simpl; intuition discriminate.
  - intros x. simpl. intuition.
Defined.

Lemma drop_final_empty_In (l : list string) (x : string) :
  x <> EmptyString -> In x l -> In x (drop_final_empty l).
Proof.
  intros Hx. induction l as [|y l IH]; [tauto|].
  destruct l as [|z l].
  - intros [<-|[]]. simpl. destruct y; [congruence|now left].
  - rewrite drop_final_empty_cons. intros [E|H]; [now left|right; now apply IH].
Qed.

Lemma only_lf_append (a b : string) :
  only_lf (a ++ b) = only_lf a && only_lf b.
Proof.
  induction a as [|c a IH]; [reflexivity|].
  simpl. now rewrite IH, andb_assoc.
Qed.

Lemma break_free_only_lf (s : string) : break_free s = true -> only_lf s = true.
Proof.
  induction s as [|c s IH]; [reflexivity|].
  simpl. intros H. apply andb_prop in H. destruct H as [Hc Hs].
  now rewrite Hc, IH.
Qed.

Lemma only_lf_joined (l : list string) :
  Forall (fun x => break_free x = true) l -> only_lf (Py.join nl l) = true.
Proof.
  induction 1 as [|x l Hx Hl IH]; [reflexivity|].
  destruct l as [|y l].
  - rewrite join_single. now apply break_free_only_lf.
  - rewrite join_cons, !only_lf_append, IH, break_free_only_lf by assumption.
    reflexivity.
Qed.

(** X14. The text that [uniq] stores has no line twice; its lines are
    the lines of the text it found, an empty line apart; its only line
    boundaries are line feeds; and it is never longer than the text it
    found. *)
Theorem unique_lines_result (content : string) :
  let text := unique_lines content in
  NoDup (Py.splitlines text) /\
  (forall x, x <> EmptyString ->
             (In x (Py.splitlines text) <-> In x (Py.splitlines content))) /\
  only_lf text = true /\
  String.length text <= String.length content.
Proof.
  intros text. unfold text. rewrite unique_lines_first_occurrences.
  set (l := first_occurrences (Py.splitlines content)).
  assert (Hbf : Forall (fun x => break_free x = true) l)
    by apply first_occurrences_break_free, splitlines_break_free.
  assert (Hnd : NoDup l) by apply first_occurrences_NoDup.
  rewrite splitlines_join by assumption.
  split; [now apply drop_final_empty_NoDup|]. split; [|split].
  - intros x Hx. unfold l. split.
    + intros H. apply drop_final_empty_sub in H.
      apply first_occurrences_In. exact H.
    + intros H. apply drop_final_empty_In; [exact Hx|].
      apply first_occurrences_In. exact H.
  - now apply only_lf_joined.
  - rewrite join_length.
    pose proof (weight_first_occurrences (Py.splitlines content)).
    destruct (weight_splitlines content) as [Hw _]. fold l in H. lia.
Qed.

(** ** [cd] and then [ls] *)

(** X15. When the path of [cd] resolves, the [ls] that follows succeeds
    and prints the keys of the node [cd] has moved to, in the order of its
    dictionary. *)
Theorem cd_then_ls (P : Platform) (s : ShellEmulator) (path : string)
    (node : dict) :
  traverse_path (fs s) (cd_target P s path) = Some node ->
  printed (cd P [path] s) (ls P (cd P [path] s)) = dict_keys node /\
  last_status (ls P (cd P [path] s)) = Some (success, EmptyString) /\
  current_path (ls P (cd P [path] s)) = cd_target P s path.
Proof.
  intros H. destruct (cd_resolved P s path node H) as (Hc & Hf & _).
  assert (T : traverse_path (fs (cd P [path] s)) (current_path (cd P [path] s))
              = Some node) by now rewrite Hc, Hf.
  destruct (ls_prints_keys P _ node T) as [Hp Hs].
  destruct (ls_frame P (cd P [path] s)) as [Hcur _].
  repeat split; try assumption. now rewrite Hcur.
Qed.

Lemma cd_then_ls_witness :
  exists s0,
    session_on sample_members = Some s0 /\
    printed (cd windows ["p"] s0) (ls windows (cd windows ["p"] s0)) = ["q"].
Proof.
  destruct (session_on sample_members) as [s0|] eqn:S;
    [|vm_compute in S; discriminate].
  exists s0. split; [reflexivity|].
  vm_compute in S. inversion S; subst s0. clear S.
  eapply (cd_then_ls windows _ "p" [("q", _)]).
  vm_compute. reflexivity.
Defined.

(** ** The stand-in of the tests *)

(** X16. In the class the tests run against, [current_dir] is [/] or
    [/subdir] after any calls of [cd], those that raise included; so [ls]
    never falls back to the empty list: it returns the two names of the
    root or the one name of [subdir].  [cd ..] leads to the root from
    either. *)
Theorem test_double_stays_in_its_table (paths : list string) :
  let d := TestDouble.cds paths TestDouble.init in
  (d = "/" /\ TestDouble.ls d = ["file1.txt"; "subdir"]) \/
  (d = "/subdir" /\ TestDouble.ls d = ["file2.txt"]).
Proof.
  intros d.
  assert (H : forall d0, d0 = "/" \/ d0 = "/subdir" ->
            TestDouble.cds paths d0 = "/" \/ TestDouble.cds paths d0 = "/subdir").
  { induction paths as [|path paths IH]; intros d0 Hd; [exact Hd|].
    simpl. unfold TestDouble.cd.
    destruct (String.eqb path ".."); [apply IH; now left|].
    destruct (String.eqb path "subdir"); [apply IH; now right|].
    now apply IH. }
  destruct (H "/" (or_introl eq_refl)) as [E|E];
    unfold d, TestDouble.init; rewrite E.
  - left. split; reflexivity.
  - right. split; reflexivity.
Qed.

(** The five tests of [TestShellEmulator] pass. *)
Example test_double_tests :
  In "file1.txt" (TestDouble.ls TestDouble.init) /\
  In "subdir" (TestDouble.ls TestDouble.init) /\
  In "file2.txt" (TestDouble.ls (TestDouble.cds ["subdir"] TestDouble.init)) /\
  TestDouble.cd "nonexistent" TestDouble.init = None /\
  TestDouble.ls (TestDouble.cds ["subdir"; ".."] TestDouble.init)
    = ["file1.txt"; "subdir"] /\
  TestDouble.ls (TestDouble.cds ["subdir"] TestDouble.init) = ["file2.txt"].
Proof. repeat split; simpl; auto. Qed.

(** ** The names at the root *)

Lemma dict_keys_set (k : string) (v : value) (d : dict) :
  dict_keys (dict_set k v d) =
  if dict_mem k d then dict_keys d else (dict_keys d ++ [k])%list.
Proof.
  unfold dict_mem. induction d as [|[k' v'] d IH]; simpl; [reflexivity|].
  destruct (String.eqb k' k) eqn:E; simpl.
  - apply String.eqb_eq in E. now subst.
  - rewrite IH. now destruct (dict_get k d).
Qed.

Lemma dict_mem_keys (k : string) (d : dict) :
  dict_mem k d = true <-> In k (dict_keys d).
Proof.
  unfold dict_mem. induction d as [|[k' v'] d IH]; simpl.
  - split; [discriminate|tauto].
  - destruct (String.eqb k' k) eqn:E.
    + apply String.eqb_eq in E. split; auto.
    + apply String.eqb_neq in E. rewrite IH. split; [auto|].
      intros [H|H]; [contradiction|exact H].
Qed.

Lemma remove_first_occurrences_drop (y : string) (a r : list string) :
  remove string_dec y (first_occurrences (a ++ y :: r))
  = remove string_dec y (first_occurrences (a ++ r)).
Proof.
  induction a as [|x a IH]; simpl.
  - destruct (string_dec y y) as [_|Hne]; [|congruence].
    apply remove_remove_eq.
  - destruct (string_dec y x) as [<-|Hne].
    + now rewrite !remove_remove_eq, IH.
    + f_equal.
      rewrite (remove_remove_comm string_dec (first_occurrences (a ++ y :: r)) y x),
              (remove_remove_comm string_dec (first_occurrences (a ++ r)) y x).
      now rewrite IH.
Qed.

Lemma first_occurrences_seen (n : string) (k r : list string) :
  In n k -> first_occurrences (k ++ n :: r) = first_occurrences (k ++ r).
Proof.
  induction k as [|y k IH]; [intros []|].
  simpl. intros [->|H].
  - f_equal. apply remove_first_occurrences_drop.
  - now rewrite IH.
Qed.

Lemma store_root_keys (dirs : list string) (name : string) (k : member_kind)
    (node tree : dict) :
  store dirs name k node = Ok tree ->
  dict_keys tree =
  match dirs, k with
  | [], IsOther => dict_keys node
  | _, _ =>
      if dict_mem (hd EmptyString (dirs ++ [name])) node then dict_keys node
      else (dict_keys node ++ [hd EmptyString (dirs ++ [name])])%list
  end.
Proof.
  destruct dirs as [|part rest]; simpl; intros Hs.
  - inversion Hs; subst tree.
    destruct k; simpl; try reflexivity; apply dict_keys_set.
  - assert (Hgoal : forall sub,
      dict_keys (dict_set part (VDict sub) node) =
      if dict_mem part node then dict_keys node
      else (dict_keys node ++ [part])%list) by (intros; apply dict_keys_set).
    unfold dict_mem in *.
    destruct (dict_get part node) as [[t|d]|] eqn:G.
    + destruct rest, k; try discriminate. now inversion Hs.
    + destruct (store rest name k d) as [sub|e]; [|discriminate].
      simpl in Hs. inversion Hs. apply Hgoal.
    + destruct (store rest name k []) as [sub|e]; [|discriminate].
      simpl in Hs. inversion Hs. apply Hgoal.
Qed.

Lemma root_key_added (part : string) (fs0 : dict) (later : list string) :
  first_occurrences
    ((if dict_mem part fs0 then dict_keys fs0
      else (dict_keys fs0 ++ [part])%list) ++ later)
  = first_occurrences (dict_keys fs0 ++ part :: later).
Proof.
  destruct (dict_mem part fs0) eqn:M.
  - apply dict_mem_keys in M. now rewrite first_occurrences_seen.
  - now rewrite <- app_assoc.
Qed.

Lemma load_member_root_keys (fs0 fs1 : dict) (m : member) (later : list string) :
  load_member fs0 m = Ok fs1 ->
  first_occurrences (dict_keys fs1 ++ later)
  = first_occurrences (dict_keys fs0 ++ root_name m ++ later).
Proof.
  unfold load_member, root_name. fold (member_parts m).
  pose proof (split_not_nil Py.SLASH (member_name m)) as Hne.
  fold (member_parts m) in Hne.
  intros H. apply store_root_keys in H.
  rewrite <- (app_removelast_last EmptyString Hne) in H.
  destruct (member_parts m) as [|part [|part' rest]] eqn:Pm; [congruence| |].
  - cbn [removelast hd app] in H.
    destruct (kind m); rewrite H; try apply root_key_added. reflexivity.
  - assert (Hd : removelast (part :: part' :: rest)
                 = part :: removelast (part' :: rest)) by reflexivity.
    rewrite Hd in H. cbn [hd app] in H.
    assert (H' : dict_keys fs1 =
                 if dict_mem part fs0 then dict_keys fs0
                 else (dict_keys fs0 ++ [part])%list).
    { rewrite H. now destruct (kind m). }
    rewrite H'. destruct (kind m); apply root_key_added.
Qed.

(** X17. The keys of the root of a loaded tree, which are what [ls]
    prints at the root, are the first parts of the names of the members,
    each once and in the order in which the archive first has them; a
    member that is neither a file nor a directory counts only when its
    name has more than one part. *)
Theorem load_tar_root_keys (members : list member) (tree : dict) :
  load_tar members = Ok tree ->
  dict_keys tree = first_occurrences (root_names members) /\
  NoDup (dict_keys tree).
Proof.
  intros H.
  assert (G : forall ms fs0 t,
    load_members ms fs0 = Ok t ->
    first_occurrences (dict_keys t)
    = first_occurrences (dict_keys fs0 ++ root_names ms) /\
    (NoDup (dict_keys fs0) -> NoDup (dict_keys t))).
  { induction ms as [|m ms IH]; intros fs0 t Hl; simpl in Hl.
    - inversion Hl; subst. simpl. now rewrite app_nil_r.
    - destruct (load_member fs0 m) as [fs1|e] eqn:L; [|discriminate].
      simpl in Hl. destruct (IH fs1 t Hl) as [IH1 IH2]. split.
      + rewrite IH1. simpl. now apply load_member_root_keys.
      + intros Hnd. apply IH2.
        unfold load_member in L. apply store_root_keys in L.
        assert (Hsnoc : forall key,
          NoDup (if dict_mem key fs0 then dict_keys fs0
                 else (dict_keys fs0 ++ [key])%list)).
        { intros key. destruct (dict_mem key fs0) eqn:M; [exact Hnd|].
          apply NoDup_app; [exact Hnd|repeat constructor; tauto|].
          intros x Hx [<-|[]]. apply dict_mem_keys in Hx. congruence. }
        rewrite L.
        destruct (removelast (Py.split Py.SLASH (member_name m)));
          destruct (kind m); auto. }
  unfold load_tar in H. destruct (G members [] tree H) as [G1 G2].
  assert (Hnd : NoDup (dict_keys tree)) by (apply G2; constructor).
  split; [|exact Hnd].
  rewrite <- (first_occurrences_id _ Hnd). exact G1.
Qed.

Lemma load_tar_root_keys_witness :
  exists tree,
    load_tar sample_members = Ok tree /\ dict_keys tree = ["d"; "p"].
Proof.
  destruct (load_tar sample_members) as [tree|e] eqn:L;
    [|vm_compute in L; discriminate].
  exists tree. split; [reflexivity|].
  now apply (load_tar_root_keys sample_members tree L).
Defined.
